(** * The context snapshot cache of the Obsidian pre-prompt hook

    A shallow embedding of [hooks/obsidian-preprompt.js] (the last, complete
    version of the hook in that file) and the properties of its snapshot and
    cache engine.

    Strings are JavaScript strings: sequences of UTF-16 code units, so that
    [length] is JavaScript's [.length].  A code unit is a number in [N]. *)

From Stdlib Require Import ZArith Lia Ascii String.
From stdpp Require Import gmap list.

Local Open Scope Z_scope.

(** ** JavaScript strings *)

Abbreviation jsstring := (list N).

(** The code units of an ASCII literal. *)
Definition lit (s : string) : jsstring :=
  map N_of_ascii (list_ascii_of_string s).
Arguments lit s%_string.

Definition strlen (s : jsstring) : Z := Z.of_nat (length s).

(** Truthiness of a string: [if (s)]. *)
Definition nonEmpty (s : jsstring) : bool :=
  match s with [] => false | _ :: _ => true end.

Definition LF : N := 10%N.
Definition CR : N := 13%N.

(** ECMAScript WhiteSpace and LineTerminator code points: what
    [String.prototype.trim] strips and what [\s] matches. *)
Definition isWhiteSpace (c : N) : bool :=
  ((9 <=? c) && (c <=? 13) || (c =? 32) || (c =? 160) || (c =? 5760)
   || (8192 <=? c) && (c <=? 8202) || (c =? 8232) || (c =? 8233)
   || (c =? 8239) || (c =? 8287) || (c =? 12288) || (c =? 65279))%N.

(** LineTerminator: what [.] does not match. *)
Definition isLineTerminator (c : N) : bool :=
  ((c =? 10) || (c =? 13) || (c =? 8232) || (c =? 8233))%N.

Fixpoint trimStart (s : jsstring) : jsstring :=
  match s with
  | [] => []
  | c :: s' => if isWhiteSpace c then trimStart s' else s
  end.

Fixpoint trimEnd (s : jsstring) : jsstring :=
  match s with
  | [] => []
  | c :: s' =>
      match trimEnd s' with
      | [] => if isWhiteSpace c then [] else [c]
      | t => c :: t
      end
  end.

Definition trim (s : jsstring) : jsstring := trimEnd (trimStart s).

(** [s.replace(/\r\n?/g, '\n')] *)
Fixpoint normalizeNewlines (s : jsstring) : jsstring :=
  match s with
  | [] => []
  | c :: s' =>
      if (c =? CR)%N then
        LF :: match s' with
              | d :: s'' =>
                  if (d =? LF)%N then normalizeNewlines s''
                  else normalizeNewlines s'
              | [] => []
              end
      else c :: normalizeNewlines s'
  end.

(** [s.split('\n')]: never empty, the empty string gives one empty line. *)
Fixpoint split_lines (s : jsstring) : list jsstring :=
  match s with
  | [] => [[]]
  | c :: s' =>
      if (c =? LF)%N then [] :: split_lines s'
      else match split_lines s' with
           | l :: ls => (c :: l) :: ls
           | [] => [[c]]
           end
  end.

(** [parts.join(sep)] *)
Fixpoint join (sep : jsstring) (parts : list jsstring) : jsstring :=
  match parts with
  | [] => []
  | [p] => p
  | p :: ps => p ++ sep ++ join sep ps
  end.

Definition NL : jsstring := [LF].

(** [s.startsWith(p)] *)
Fixpoint startsWith (p s : jsstring) : bool :=
  match p, s with
  | [], _ => true
  | _ :: _, [] => false
  | a :: p', b :: s' => (a =? b)%N && startsWith p' s'
  end.

(** [s.includes(p)] *)
Fixpoint includes (p s : jsstring) : bool :=
  startsWith p s || match s with [] => false | _ :: s' => includes p s' end.

(** Membership in a [Set] of strings, and [Array.from(new Set(xs))], which
    keeps the first occurrence of each element in order. *)
Definition seenIn (x : jsstring) (seen : list jsstring) : bool :=
  bool_decide (x ∈ seen).

Fixpoint uniqueFrom (seen : list jsstring) (xs : list jsstring) : list jsstring :=
  match xs with
  | [] => []
  | x :: xs' =>
      if seenIn x seen then uniqueFrom seen xs'
      else x :: uniqueFrom (x :: seen) xs'
  end.

Definition unique (xs : list jsstring) : list jsstring := uniqueFrom [] xs.

(** ** Constants of the hook *)

Definition MAX_SNAPSHOT_CHARS : Z := 12000.

(** [Math.ceil(n / 4)] for a length [n]. *)
Definition ceilDiv4 (n : Z) : Z := (n + 3) / 4.

Definition MAX_SNAPSHOT_TOKENS : Z := ceilDiv4 MAX_SNAPSHOT_CHARS.

(** [Math.floor(MAX_SNAPSHOT_TOKENS * 0.4)] and [Math.floor(... * 0.6)]: the
    double products 3000 * 0.4 and 3000 * 0.6 round to 1200 and 1800, which
    are also the exact values of 3000 * 2 / 5 and 3000 * 3 / 5. *)
Definition GOVERNANCE_TOKEN_BUDGET : Z := MAX_SNAPSHOT_TOKENS * 2 / 5.
Definition DAILY_TOKEN_BUDGET : Z := MAX_SNAPSHOT_TOKENS * 3 / 5.

(** ** Token estimate and the token-budget trim *)

Definition estimateTokens (text : jsstring) : Z := ceilDiv4 (strlen text).

(** The loop of [trimTextToTokenBudget]: lines are kept from the start, and
    the first line that does not fit ends the loop ([break]). *)
Fixpoint keepLinesWithinTokens (lines : list jsstring) (used tokenBudget : Z)
  : list jsstring :=
  match lines with
  | [] => []
  | line :: rest =>
      let cost := estimateTokens (line ++ NL) in
      if used + cost >? tokenBudget then []
      else line :: keepLinesWithinTokens rest (used + cost) tokenBudget
  end.

Definition trimTextToTokenBudget (text : jsstring) (tokenBudget : Z) : jsstring :=
  let normalized := trim (normalizeNewlines text) in
  if negb (nonEmpty normalized) || (tokenBudget <=? 0) then []
  else if estimateTokens normalized <=? tokenBudget then normalized
  else trim (join NL (keepLinesWithinTokens (split_lines normalized) 0 tokenBudget)).

(** The separator ['\n\n---\n\n'] between top-level blocks. *)
Definition blockSeparator : jsstring := NL ++ NL ++ lit "---" ++ NL ++ NL.

Definition sinceHeader : jsstring := lit "Since you last spoke:" ++ NL.

(** [buildTokenAwareSnapshot({ deltaText, fullSnapshot, tokenBudget })] *)
Definition deltaBlockOf (deltaText : jsstring) (tokenBudget : Z) : jsstring :=
  if nonEmpty deltaText
  then trimTextToTokenBudget (sinceHeader ++ deltaText) tokenBudget
  else [].

Definition buildTokenAwareSnapshot (deltaText fullSnapshot : jsstring)
    (tokenBudget : Z) : jsstring :=
  let deltaBlock := deltaBlockOf deltaText tokenBudget in
  let parts1 := if nonEmpty deltaBlock then [deltaBlock] else [] in
  let remaining :=
    if nonEmpty deltaBlock then tokenBudget - estimateTokens deltaBlock
    else tokenBudget in
  let summaryBlock :=
    if nonEmpty fullSnapshot && (remaining >? 0)
    then trimTextToTokenBudget fullSnapshot remaining
    else [] in
  let parts2 := if nonEmpty summaryBlock then [summaryBlock] else [] in
  trimTextToTokenBudget (join blockSeparator (parts1 ++ parts2)) tokenBudget.

(** ** The budget allocator and assembler *)

Definition govHeader : jsstring := lit "# Behavioral Governance" ++ NL.

Definition dailyHeader : jsstring :=
  lit "# Today's Context (from daily note)" ++ NL.

(** The local [trimmedGov] of [buildUnifiedSnapshot] (empty when the
    governance branch is not taken). *)
Definition trimmedGov (governanceContext : jsstring) : jsstring :=
  if nonEmpty governanceContext then
    let govTokens := estimateTokens governanceContext in
    let govBudget := Z.min govTokens GOVERNANCE_TOKEN_BUDGET in
    trimTextToTokenBudget governanceContext govBudget
  else [].

(** [remaining] after the governance branch. *)
Definition remainingAfterGov (governanceContext : jsstring) (tokenBudget : Z) : Z :=
  let g := trimmedGov governanceContext in
  if nonEmpty g then tokenBudget - estimateTokens (govHeader ++ g)
  else tokenBudget.

(** The local [trimmedDaily] (empty when the daily branch is not taken). *)
Definition trimmedDaily (dailyText governanceContext : jsstring)
    (tokenBudget : Z) : jsstring :=
  let remaining := remainingAfterGov governanceContext tokenBudget in
  if nonEmpty dailyText && (remaining >? 0) then
    let dailyBudget := Z.min remaining DAILY_TOKEN_BUDGET in
    trimTextToTokenBudget dailyText dailyBudget
  else [].

Definition unifiedParts (dailyText governanceContext : jsstring)
    (tokenBudget : Z) : list jsstring :=
  let g := trimmedGov governanceContext in
  let d := trimmedDaily dailyText governanceContext tokenBudget in
  (if nonEmpty g then [govHeader ++ g] else [])
  ++ (if nonEmpty d then [dailyHeader ++ d] else []).

Definition buildUnifiedSnapshot (dailyText governanceContext : jsstring)
    (tokenBudget : Z) : jsstring :=
  trim (join blockSeparator (unifiedParts dailyText governanceContext tokenBudget)).

(** ** The structural truncator *)

Definition HASH : N := 35%N.
Definition BANG : N := 33%N.
Definition LBRACKET : N := 91%N.
Definition RBRACKET : N := 93%N.
Definition DASH : N := 45%N.
Definition STAR : N := 42%N.
Definition SPACE : N := 32%N.
Definition PERCENT : N := 37%N.

(** The longest prefix of [s] whose code units satisfy [p], and the rest. *)
Fixpoint spanWhile (p : N -> bool) (s : jsstring) : jsstring * jsstring :=
  match s with
  | [] => ([], [])
  | c :: s' =>
      if p c then let '(run, rest) := spanWhile p s' in (c :: run, rest)
      else ([], s)
  end.

Definition notRBracket (c : N) : bool := negb (c =? RBRACKET)%N.

(** A match of [\[\[[^\]]+\]\]] at the start of [s]. *)
Definition matchLinkAt (s : jsstring) : option jsstring :=
  match s with
  | a :: b :: s2 =>
      if (a =? LBRACKET)%N && (b =? LBRACKET)%N then
        match spanWhile notRBracket s2 with
        | ((_ :: _) as body, c :: d :: _) =>
            if (c =? RBRACKET)%N && (d =? RBRACKET)%N
            then Some (LBRACKET :: LBRACKET :: body ++ [RBRACKET; RBRACKET])
            else None
        | _ => None
        end
      else None
  | _ => None
  end.

(** A match of [!?\[\[[^\]]+\]\]] at the start of [s]. *)
Definition matchWikilinkAt (s : jsstring) : option jsstring :=
  match s with
  | c :: s' =>
      if (c =? BANG)%N then
        match matchLinkAt s' with
        | Some t => Some (BANG :: t)
        | None => None
        end
      else matchLinkAt s
  | [] => None
  end.

(** The successive matches of a global regular expression: after a match
    of length [n] at a position the search resumes [n] code units later;
    [skip] counts the code units still covered by the last match. *)
Fixpoint scanWikilinks (skip : nat) (s : jsstring) : list jsstring :=
  match s with
  | [] => []
  | _ :: s' =>
      match skip with
      | S k => scanWikilinks k s'
      | O =>
          match matchWikilinkAt s with
          | Some tok => tok :: scanWikilinks (length tok - 1) s'
          | None => scanWikilinks 0 s'
          end
      end
  end.

Definition extractWikilinks (text : jsstring) : list jsstring :=
  unique (scanWikilinks 0 text).

(** The class [[A-Za-z0-9_\/-]]; under the [i] flag of a non-Unicode
    regular expression no code unit outside ASCII is folded into it. *)
Definition isTagChar (c : N) : bool :=
  ((65 <=? c) && (c <=? 90) || (97 <=? c) && (c <=? 122)
   || (48 <=? c) && (c <=? 57) || (c =? 95) || (c =? 47) || (c =? 45))%N.

(** [#[A-Za-z0-9_\/-]+] at the start of [s]. *)
Definition matchHashLabel (s : jsstring) : option jsstring :=
  match s with
  | c :: s' =>
      if (c =? HASH)%N then
        match spanWhile isTagChar s' with
        | ((_ :: _) as run, _) => Some (HASH :: run)
        | _ => None
        end
      else None
  | [] => None
  end.

(** A match of [(^|\s)(#[A-Za-z0-9_\/-]+)] at the start of [s]; with the
    [m] flag [^] holds at the start of the text and after a line
    terminator. *)
Definition matchTagAt (atLineStart : bool) (s : jsstring) : option jsstring :=
  match (if atLineStart then matchHashLabel s else None) with
  | Some t => Some t
  | None =>
      match s with
      | w :: s' =>
          if isWhiteSpace w then
            match matchHashLabel s' with
            | Some t => Some (w :: t)
            | None => None
            end
          else None
      | [] => None
      end
  end.

Fixpoint scanTags (skip : nat) (prev : option N) (s : jsstring) : list jsstring :=
  match s with
  | [] => []
  | c :: s' =>
      match skip with
      | S k => scanTags k (Some c) s'
      | O =>
          let atLineStart :=
            match prev with None => true | Some p => isLineTerminator p end in
          match matchTagAt atLineStart s with
          | Some m => m :: scanTags (length m - 1) (Some c) s'
          | None => scanTags 0 (Some c) s'
          end
      end
  end.

Definition extractTags (text : jsstring) : list jsstring :=
  unique (map trim (scanTags 0 None text)).

(** [/^\s*- \[( |x|X)\]\s/.test(line)] *)
Definition isTaskLine (line : jsstring) : bool :=
  match trimStart line with
  | d :: sp :: lb :: m :: rb :: w :: _ =>
      (d =? DASH)%N && (sp =? SPACE)%N && (lb =? LBRACKET)%N
      && ((m =? SPACE) || (m =? 120) || (m =? 88))%N
      && (rb =? RBRACKET)%N && isWhiteSpace w
  | _ => false
  end.

Definition extractTaskLines (lines : list jsstring) : list jsstring :=
  filter (fun line => isTaskLine line = true) lines.

(** The number of matches of [/%%/g] in a line. *)
Fixpoint countMarkers (s : jsstring) : nat :=
  match s with
  | a :: s' =>
      match s' with
      | b :: s'' =>
          if (a =? PERCENT)%N && (b =? PERCENT)%N then S (countMarkers s'')
          else countMarkers s'
      | [] => O
      end
  | [] => O
  end.

Fixpoint commentLoop (inBlockComment : bool) (lines : list jsstring)
  : list jsstring :=
  match lines with
  | [] => []
  | line :: rest =>
      if includes [PERCENT; PERCENT] line then
        let inBlock' :=
          if Nat.odd (countMarkers line) then negb inBlockComment
          else inBlockComment in
        line :: commentLoop inBlock' rest
      else if inBlockComment then line :: commentLoop inBlockComment rest
      else commentLoop inBlockComment rest
  end.

Definition extractCommentLines (lines : list jsstring) : list jsstring :=
  commentLoop false lines.

(** [/^#{1,6}\s/.test(line)] *)
Definition isHeadingStart (line : jsstring) : bool :=
  match spanWhile (fun c => (c =? HASH)%N) line with
  | (hashes, c :: _) =>
      (1 <=? length hashes)%nat && (length hashes <=? 6)%nat && isWhiteSpace c
  | _ => false
  end.

(** The heading lines among [lines[0..startIdx]]. *)
Definition findHeadingContext (lines : list jsstring) (startIdx : nat)
  : list jsstring :=
  filter (fun line => isHeadingStart line = true) (take (S startIdx) lines).

(** The first loop of [clipFromTailByLine] on [lines[i]], [lines[i-1]], ...
    given as pairs of index and line: a line that does not fit is skipped
    and the scan goes on ([continue]). The result is [picked], in the order
    of the [push]es. *)
Fixpoint pickLoop (candidates : list (nat * jsstring)) (used maxChars : Z)
  : list nat :=
  match candidates with
  | [] => []
  | (i, candidate) :: rest =>
      let cost := strlen candidate + 1 in
      if used + cost >? maxChars then pickLoop rest used maxChars
      else i :: pickLoop rest (used + cost) maxChars
  end.

Definition indexed (lines : list jsstring) : list (nat * jsstring) :=
  zip (seq 0 (length lines)) lines.

Definition pickFromTail (lines : list jsstring) (maxChars : Z) : list nat :=
  pickLoop (reverse (indexed lines)) 0 maxChars.

(** [picked.sort((a, b) => a - b)] *)
Fixpoint insertAscending (i : nat) (sorted : list nat) : list nat :=
  match sorted with
  | [] => [i]
  | j :: rest =>
      if (i <=? j)%nat then i :: sorted else j :: insertAscending i rest
  end.

Definition sortAscending (picked : list nat) : list nat :=
  foldr insertAscending [] picked.

(** [lines[idx]] for an index in range. *)
Definition lineAt (lines : list jsstring) (idx : nat) : jsstring :=
  default [] (lines !! idx).

(** One step of the two de-duplicating loops, on the pair of [result] and
    [seen]. *)
Definition pushHeading (acc : list jsstring * list jsstring) (heading : jsstring)
  : list jsstring * list jsstring :=
  let '(result, seen) := acc in
  if negb (seenIn heading seen) then (result ++ [heading], heading :: seen)
  else acc.

Definition pushLine (acc : list jsstring * list jsstring) (line : jsstring)
  : list jsstring * list jsstring :=
  let '(result, seen) := acc in
  if negb (nonEmpty line) || negb (seenIn line seen)
  then (result ++ [line], line :: seen)
  else acc.

Definition clipFromTailByLine (lines : list jsstring) (maxChars : Z)
  : list jsstring :=
  match sortAscending (pickFromTail lines maxChars) with
  | [] => []
  | (startIdx :: _) as picked =>
      let headingContext := findHeadingContext lines startIdx in
      let afterHeadings := fold_left pushHeading headingContext ([], []) in
      fst (fold_left pushLine (map (lineAt lines) picked) afterHeadings)
  end.

(** The final guard of [buildObsidianSafeSnapshot]: lines kept from the
    start, a line that does not fit is skipped ([continue]). *)
Fixpoint boundLines (lines : list jsstring) (used maxChars : Z) : list jsstring :=
  match lines with
  | [] => []
  | line :: rest =>
      let cost := strlen line + 1 in
      if used + cost >? maxChars then boundLines rest used maxChars
      else line :: boundLines rest (used + cost) maxChars
  end.

Definition truncationMarker : jsstring :=
  lit "[Truncated safely by line boundaries to preserve Obsidian syntax]".

(** [Math.floor(maxChars * 0.65)]: for a whole number of characters below
    2^40 the double product is within 2^-12 of [maxChars * 13 / 20], whose
    fractional part is a multiple of 1/20, so that the floor is that of the
    exact quotient. *)
Definition excerptBudget (maxChars : Z) : Z := maxChars * 13 / 20.

Definition section (heading : string) (items : list jsstring) (sep : jsstring)
  : list jsstring :=
  match items with
  | [] => []
  | _ :: _ => [lit heading; join sep items]
  end.

(** [parts] of [buildObsidianSafeSnapshot] for an over-budget [text]. *)
Definition snapshotParts (text : jsstring) (maxChars : Z) : list jsstring :=
  let lines := split_lines text in
  let clippedLines := clipFromTailByLine lines (excerptBudget maxChars) in
  [lit "## Recent Snapshot"; trim (join NL clippedLines)]
  ++ section "## Tasks (Preserved)" (extractTaskLines lines) NL
  ++ section "## Wikilinks (Graph Integrity)" (extractWikilinks text) [SPACE]
  ++ section "## Tags" (extractTags text) [SPACE]
  ++ section "## Comments" (extractCommentLines lines) NL.

(** [parts.filter(Boolean).join('\n\n').trim()] *)
Definition assembleParts (parts : list jsstring) : jsstring :=
  trim (join (NL ++ NL) (filter (fun p => nonEmpty p = true) parts)).

Definition buildObsidianSafeSnapshot (raw : jsstring) (maxChars : Z) : jsstring :=
  let text := trim (normalizeNewlines raw) in
  if negb (nonEmpty text) then []
  else if strlen text <=? maxChars then text
  else
    let assembled := assembleParts (snapshotParts text maxChars) in
    if strlen assembled <=? maxChars then assembled
    else
      let bounded := boundLines (split_lines assembled) 0 maxChars in
      trim (join NL bounded) ++ NL ++ NL ++ truncationMarker.

(** ** Regular expressions of the constraint extractor *)

(** [line.match(/^(#{1,6})\s+(.+)$/)]: the number of hashes and the captured
    title.  The hashes are followed by a run of white space and by a title
    of at least one code unit, none a line terminator; when nothing follows
    the white space, the greedy [\s+] gives its last code unit back to [.+]. *)
Definition headingParts (line : jsstring) : option (nat * jsstring) :=
  let '(hashes, afterHashes) := spanWhile (fun c => (c =? HASH)%N) line in
  if (1 <=? length hashes)%nat && (length hashes <=? 6)%nat then
    let '(spaces, title) := spanWhile isWhiteSpace afterHashes in
    match spaces, title with
    | [], _ => None
    | _ :: _, _ :: _ =>
        if forallb (fun c => negb (isLineTerminator c)) title
        then Some (length hashes, title) else None
    | _ :: rest, [] =>
        match last rest with
        | Some c =>
            if isLineTerminator c then None else Some (length hashes, [c])
        | None => None
        end
    end
  else None.

Definition headingMatch (line : jsstring) : option jsstring :=
  match headingParts line with
  | Some (_, title) => Some title
  | None => None
  end.

(** [line.match(/^\s*[-*]\s+/i)] *)
Definition isBulletLine (line : jsstring) : bool :=
  match trimStart line with
  | c :: w :: _ => ((c =? DASH) || (c =? STAR))%N && isWhiteSpace w
  | _ => false
  end.

Definition criticalKeywords : list jsstring :=
  [ lit "boundaries"; lit "protocol"; lit "critical"; lit "violation";
    lit "safety"; lit "security"; lit "never"; lit "always"; lit "mandatory";
    lit "prohibited"; lit "banned"; lit "ban"; lit "penalty";
    lit "consequence"; lit "warning";
    [9888; 65039]%N; [55357; 57003]%N; [10060]%N ].

(** [criticalKeywords.some(kw => lowerLine.includes(kw))] *)
Definition hasCriticalKeyword (lowerLine : jsstring) : bool :=
  existsb (fun kw => includes kw lowerLine) criticalKeywords.

(** The state of the section loop of [extractCriticalConstraints]. *)
Record ScanState := mkScanState {
  criticalSections : list (option jsstring * jsstring);
  currentSection : option jsstring;
  currentContent : list jsstring;
  inCriticalSection : bool
}.

Definition initialScan : ScanState := mkScanState [] None [] false.

(** The sections after the [push] guarded by
    [inCriticalSection && currentContent.length > 0]. *)
Definition flushSection (st : ScanState) : list (option jsstring * jsstring) :=
  if inCriticalSection st && (0 <? length (currentContent st))%nat
  then criticalSections st
       ++ [(currentSection st, trim (join NL (currentContent st)))]
  else criticalSections st.

(** ** The persisted cache state *)

Record CacheEntry := mkCacheEntry {
  noteHash : jsstring;
  governanceHash : jsstring;
  combinedHash : jsstring;
  snapshot : jsstring;
  (** [Some n] for an integer [n]; [None] for a value that fails
      [Number.isInteger]. *)
  lastLineCount : option Z;
  lastUpdatedIso : jsstring
}.

(** The mapping from [YYYY-MM-DD] keys to entries. *)
Abbreviation CacheState := (gmap jsstring CacheEntry).

(** What [JSON.parse] returns for the state file: the primitives, with what
    their truthiness depends on, or an object of cache entries.  (A top-level
    array is not part of the model.) *)
Inductive JsonValue :=
| JNull
| JBool (b : bool)
| JNumber (isZero : bool)
| JString (s : jsstring)
| JObject (entries : CacheState).

Definition truthy (v : JsonValue) : bool :=
  match v with
  | JNull => false
  | JBool b => b
  | JNumber isZero => negb isZero
  | JString s => nonEmpty s
  | JObject _ => true
  end.

(** [typeof v === 'object'] *)
Definition typeofObject (v : JsonValue) : bool :=
  match v with
  | JNull | JObject _ => true
  | _ => false
  end.

Definition entriesOf (v : JsonValue) : CacheState :=
  match v with
  | JObject entries => entries
  | _ => ∅
  end.

(** What one run of the hook reads from its environment: the date and the
    clock, the daily note as returned by the command line tool or by the
    fallback file, and the governance files found in the vault, in the order
    of [GOVERNANCE_FILES]. *)
Record Invocation := mkInvocation {
  today : jsstring;
  nowIso : jsstring;
  obsidianOutput : jsstring;
  governanceFiles : list (jsstring * jsstring)
}.

(** [array.slice(start)] *)
Definition sliceFrom {A} (start : Z) (l : list A) : list A :=
  let len := Z.of_nat (length l) in
  let k := if start <? 0 then Z.max (len + start) 0 else Z.min start len in
  drop (Z.to_nat k) l.

(** [normalizedOutput ? normalizedOutput.split('\n').length : 0] *)
Definition lineCountOf (normalizedOutput : jsstring) : Z :=
  if nonEmpty normalizedOutput
  then Z.of_nat (length (split_lines normalizedOutput))
  else 0.

(** [deltaText] of the rebuild branch. *)
Definition deltaTextOf (dayState : option CacheEntry) (normalizedOutput : jsstring)
  : jsstring :=
  match dayState with
  | Some entry =>
      match lastLineCount entry with
      | Some n =>
          if lineCountOf normalizedOutput >? n
          then trim (join NL (sliceFrom n (split_lines normalizedOutput)))
          else []
      | None => []
      end
  | None => []
  end.

(** The snapshot built by the rebuild branch. *)
Definition rebuildSnapshot (dayState : option CacheEntry)
    (normalizedOutput governanceContext : jsstring) : jsstring :=
  let fullDailySnapshot :=
    buildObsidianSafeSnapshot normalizedOutput MAX_SNAPSHOT_CHARS in
  let deltaText := deltaTextOf dayState normalizedOutput in
  let dailyContent :=
    buildTokenAwareSnapshot deltaText fullDailySnapshot DAILY_TOKEN_BUDGET in
  buildUnifiedSnapshot dailyContent governanceContext MAX_SNAPSHOT_TOKENS.

(** The cache test
    [dayState && dayState.combinedHash === combinedHash && dayState.snapshot]. *)
Definition isCacheHit (dayState : option CacheEntry) (combined : jsstring) : bool :=
  match dayState with
  | Some entry =>
      bool_decide (combinedHash entry = combined) && nonEmpty (snapshot entry)
  | None => false
  end.

Definition fileLabels : list (jsstring * jsstring) :=
  [ (lit "SOUL.md", lit "Behavioral Constraints (SOUL)");
    (lit "MEMORY.md", lit "Long-Term Rules & Protocols (MEMORY)");
    (lit "AGENTS.md", lit "Operational Protocols (AGENTS)");
    (lit "TOOLS.md", lit "Tool Usage Patterns (TOOLS)") ].

(** [fileLabels[filename] || filename] *)
Definition labelOf (filename : jsstring) : jsstring :=
  match list_find (fun entry => entry.1 = filename) fileLabels with
  | Some (_, (_, label)) => label
  | None => filename
  end.

(** What the hook leaves behind: the mapping handed to
    [writeBootstrapState], if it was called, and the snapshot. *)
Record HandlerResult := mkHandlerResult {
  safeSnapshot : jsstring;
  written : option CacheState
}.

(** The state of the file system that the hook reads and writes: the content
    of [.obsidian-bootstrap-state.json], if the file exists. *)
Record Outcome := mkOutcome {
  stateFileAfter : option jsstring;
  bootstrapFile : jsstring * jsstring
}.

(** Stand-ins for the library functions of the section below, on ASCII
    text, where they agree with JavaScript's. *)
Definition asciiLower (s : jsstring) : jsstring :=
  map (fun c => if (65 <=? c) && (c <=? 90) then c + 32 else c)%N s.

Definition asciiUpper (s : jsstring) : jsstring :=
  map (fun c => if (97 <=? c) && (c <=? 122) then c - 32 else c)%N s.

(** ** The command line of [bin/obsidian-life-memory.js] *)

(** [x.startsWith('--')] *)
Definition isFlag (x : jsstring) : bool := startsWith (lit "--") x.

(** The loop of [parseArgs] over [rest]: a flag followed by a non-empty
    argument that is not a flag takes it as its value, and the argument is
    skipped ([i += 1]). *)
Fixpoint valuesLoop (rest : list jsstring) (values : gmap jsstring jsstring)
  : gmap jsstring jsstring :=
  match rest with
  | [] => values
  | x :: rest' =>
      match rest' with
      | y :: rest'' =>
          if isFlag x && nonEmpty y && negb (isFlag y)
          then valuesLoop rest'' (<[x := y]> values)
          else valuesLoop rest' values
      | [] => values
      end
  end.

Record ParsedArgs := mkParsedArgs {
  cmd : jsstring;
  (** the elements of the [Set], in insertion order *)
  flags : list jsstring;
  values : gmap jsstring jsstring
}.

(** [parseArgs(argv)] *)
Definition parseArgs (argv : list jsstring) : ParsedArgs :=
  match argv with
  | [] => mkParsedArgs (lit "help") [] ∅
  | first :: rest =>
      mkParsedArgs first
        (unique (filter (fun x => isFlag x = true) rest))
        (valuesLoop rest ∅)
  end.

(** ** The date key *)

(** The decimal digits of a natural number, last digit first. *)
Fixpoint digitsRev (fuel : nat) (n : N) : jsstring :=
  match fuel with
  | O => []
  | S fuel' =>
      (48 + n mod 10)%N
      :: (if (n / 10 =? 0)%N then [] else digitsRev fuel' (n / 10)%N)
  end.

(** [String(n)] for a natural number [n]. *)
Definition toDecimal (n : N) : jsstring :=
  reverse (digitsRev (S (N.to_nat (N.log2 n))) n).

(** [s.padStart(2, '0')] *)
Definition padStart2 (s : jsstring) : jsstring :=
  replicate (2 - length s) 48%N ++ s.

(** [getTodayDateString], from [now.getFullYear()], [now.getMonth()] and
    [now.getDate()] (for a year that is not negative). *)
Definition getTodayDateString (fullYear month date : N) : jsstring :=
  toDecimal fullYear ++ [DASH] ++ padStart2 (toDecimal (month + 1))
  ++ [DASH] ++ padStart2 (toDecimal date).

(** ** Vocabulary of the properties *)

(** What a line costs in the two character-budget loops. *)
Definition lineCost (line : jsstring) : Z := strlen line + 1.

(** The cost of the lines at the positions [picked]. *)
Definition pickedCost (lines : list jsstring) (picked : list nat) : Z :=
  foldr (fun i acc => lineCost (lineAt lines i) + acc) 0 picked.

(** [indexed], from a first index [k]. *)
Definition indexedFrom (k : nat) (lines : list jsstring) : list (nat * jsstring) :=
  zip (seq k (length lines)) lines.

(** Following the specification's words for the delta: the lines from the
    checkpoint to the end, without the blank lines before and after them. *)
Definition isBlankLine (line : jsstring) : bool := forallb isWhiteSpace line.

Fixpoint dropBlankStart (lines : list jsstring) : list jsstring :=
  match lines with
  | [] => []
  | line :: rest => if isBlankLine line then dropBlankStart rest else lines
  end.

Definition trimBlankLines (lines : list jsstring) : list jsstring :=
  reverse (dropBlankStart (reverse (dropBlankStart lines))).

Definition deltaBySpec (checkpoint : nat) (lines : list jsstring) : jsstring :=
  join NL (trimBlankLines (drop checkpoint lines)).

(** [t] occurs in [s] as a contiguous part. *)
Definition occursIn (t s : jsstring) : Prop :=
  exists before after, s = before ++ t ++ after.

(** A text that neither starts nor ends with white space (and is not
    empty). *)
Definition tight (t : jsstring) : Prop :=
  exists c d, head t = Some c /\ last t = Some d
              /\ isWhiteSpace c = false /\ isWhiteSpace d = false.

(** Following the specification's words for a captured section: the lines
    after a heading of level [level] up to the next heading of equal or
    higher level (as many hashes or fewer). *)
Definition headingLevel (line : jsstring) : option nat :=
  match headingParts line with
  | Some (level, _) => Some level
  | None => None
  end.

Fixpoint sectionBodyBySpec (level : nat) (rest : list jsstring) : list jsstring :=
  match rest with
  | [] => []
  | line :: rest' =>
      match headingLevel line with
      | Some k =>
          if (k <=? level)%nat then []
          else line :: sectionBodyBySpec level rest'
      | None => line :: sectionBodyBySpec level rest'
      end
  end.

(** A cross-reference token: two opening brackets, a body of at least one
    code unit without closing bracket, two closing brackets. *)
Definition isWikilinkToken (t : jsstring) : Prop :=
  exists body,
    body <> [] /\ (RBRACKET ∉ body)
    /\ t = LBRACKET :: LBRACKET :: body ++ [RBRACKET; RBRACKET].

(** A label token: a hash and at least one code unit of the label class. *)
Definition isTagToken (t : jsstring) : Prop :=
  exists run,
    run <> [] /\ Forall (fun c => isTagChar c = true) run /\ t = HASH :: run.

(** A label token present in a text: at the start of the text or after a
    white space (which a line break is). *)
Definition tagOccursIn (t text : jsstring) : Prop :=
  isTagToken t
  /\ exists before after,
       text = before ++ t ++ after
       /\ (before = [] \/ exists w, last before = Some w /\ isWhiteSpace w = true).

(** The invariant of the two de-duplicating loops of [clipFromTailByLine]
    on the pair of [result] and [seen]: what is in [result] is in [seen],
    and [result] holds no non-empty line twice. *)
Definition pushedOnce (acc : list jsstring * list jsstring) : Prop :=
  (forall x, x ∈ acc.1 -> x ∈ acc.2)
  /\ NoDup (filter (fun l => nonEmpty l = true) acc.1).

(** The two digits and the four digits of a number, first digit first. *)
Definition twoDigits (n : N) : jsstring := [48 + n / 10; 48 + n mod 10]%N.

Definition fourDigits (n : N) : jsstring :=
  [48 + n / 1000; 48 + (n / 100) mod 10; 48 + (n / 10) mod 10; 48 + n mod 10]%N.

(** What [getFullYear], [getMonth] and [getDate] return for a date whose
    year has four digits. *)
Definition calendarDate (fullYear month date : N) : Prop :=
  (1000 <= fullYear <= 9999 /\ month <= 11 /\ 1 <= date <= 31)%N.

(** ** Sample inputs *)

(** A governance context of 4800 characters and a daily text of 7176
    characters, one line each. *)
Definition sampleGovernance : jsstring := replicate (Z.to_nat 4800) 103%N.
Definition sampleDaily : jsstring := replicate (Z.to_nat 7176) 100%N.

(** A daily note of 300 open tasks, each line 49 characters long. *)
Definition sampleTaskLine : jsstring := lit "- [ ] " ++ replicate 43 120%N.
Definition sampleTaskNote : jsstring := join NL (replicate 300 sampleTaskLine).


(** A note whose long middle line separates two short ones. *)
Definition sampleGapNote : jsstring :=
  lit "a" ++ NL ++ replicate (Z.to_nat 12000) 98%N ++ NL ++ lit "c".

(** Stand-ins for the digest and for the JSON functions. *)
Definition sampleDigest (s : jsstring) : jsstring := lit "digest:" ++ s.


Definition sampleStringify (state : CacheState) : jsstring :=
  lit "{" ++ join (lit ",") (map_to_list state).*1 ++ lit "}".

(** A day without a note and without governance files, at two times. *)
Definition sampleEmptyDay : Invocation :=
  mkInvocation (lit "2026-02-16") (lit "2026-02-16T08:30:00.000Z") [] [].


(** A day with a one-line note. *)
Definition sampleDay : Invocation :=
  mkInvocation (lit "2026-02-16") (lit "2026-02-16T08:30:00.000Z")
    (lit "- 08:00 woke up") [].

Definition sampleDayLater : Invocation :=
  mkInvocation (lit "2026-02-16") (lit "2026-02-16T09:45:00.000Z")
    (lit "- 08:00 woke up") [].

(** An entry with a checkpoint of one line, and a note grown by an
    indented line. *)
Definition sampleCheckpoint : CacheEntry :=
  mkCacheEntry [] [] [] (lit "first") (Some 1) (lit "2026-02-16T08:30:00.000Z").

Definition sampleGrownNote : jsstring :=
  lit "first" ++ NL ++ lit "  - nested item".

(** A governance document with a subsection inside a safety section, and
    one with a constraint bullet outside any matching heading. *)
Definition sampleNestedRules : list jsstring :=
  [ lit "## Safety"; lit "rule one"; lit "### Details"; lit "more detail";
    lit "## Other"; lit "x" ].

Definition sampleBulletRules : list jsstring :=
  [ lit "# Notes"; lit "- NEVER delete user files"; lit "- be kind" ].

(** The note of 300 tasks after a first line with a cross-reference and a
    label. *)
Definition sampleLinkedNote : jsstring :=
  lit "see [[Project Plan]] #work" ++ NL ++ sampleTaskNote.

(** A note of one long line after a first line with a cross-reference and
    a label. *)
Definition sampleShortLinkedNote : jsstring :=
  lit "see [[Project Plan]] #work" ++ NL ++ replicate (Z.to_nat 12000) 97%N.

(** A note of one task line before one long line. *)
Definition sampleTaskFirstNote : jsstring :=
  lit "- [ ] call the bank" ++ NL ++ replicate (Z.to_nat 12000) 97%N.

(** Lines with a block comment between two other lines. *)
Definition sampleCommentLines : list jsstring :=
  [ lit "a"; lit "%% start"; lit "hidden"; lit "end %%"; lit "b" ].

(** Three lines, the first a heading. *)
Definition sampleHeadedLines : list jsstring :=
  [ lit "# Title"; lit "text"; lit "more" ].

(** A governance document of one section, and one whose only constraint is
    a bullet under a heading without keyword. *)
Definition sampleRules : jsstring :=
  lit "## Safety" ++ NL ++ lit "- never delete user files".

Definition sampleBulletSection : list jsstring :=
  [ lit "# Notes"; lit "- never delete user files"; lit "ask first";
    lit "# Other"; lit "x" ].

(** An entry with a checkpoint of two lines. *)
Definition sampleCheckpointTwo : CacheEntry :=
  mkCacheEntry [] [] [] (lit "first") (Some 2) (lit "2026-02-16T08:30:00.000Z").

Section Hook.

Set Default Proof Using "Type".

(** ** Library functions

    [String.prototype.toLowerCase] and [toUpperCase] (the Unicode case
    mappings), the hexadecimal SHA-256 digest, and [JSON.parse] ([None] when
    it throws) and [JSON.stringify(state, null, 2)]. *)
Variable toLowerCase toUpperCase : jsstring -> jsstring.
Variable computeSha256 : jsstring -> jsstring.
Variable JSON_parse : jsstring -> option JsonValue.
Variable JSON_stringify : CacheState -> jsstring.

(** ** The constraint extractor *)

(** One iteration of the section loop. *)
Definition scanLine (st : ScanState) (line : jsstring) : ScanState :=
  let lowerLine := toLowerCase line in
  match headingMatch line with
  | Some title =>
      mkScanState (flushSection st) (Some title) [line]
        (hasCriticalKeyword lowerLine)
  | None =>
      let st1 :=
        if isBulletLine line && hasCriticalKeyword lowerLine
           && negb (inCriticalSection st)
        then mkScanState (criticalSections st) (Some (lit "Critical Rules"))
               [] true
        else st in
      if inCriticalSection st1
      then mkScanState (criticalSections st1) (currentSection st1)
             (currentContent st1 ++ [line]) true
      else st1
  end.

(** [criticalSections] after the loop and the last [push]. *)
Definition sectionsOf (lines : list jsstring) : list (option jsstring * jsstring) :=
  flushSection (fold_left scanLine lines initialScan).

Definition isStrongConstraint (line : jsstring) : bool :=
  let upperLine := toUpperCase line in
  (includes (lit "NEVER") upperLine || includes (lit "ALWAYS") upperLine
   || includes (lit "MANDATORY") upperLine)
  && (startsWith [DASH] (trim line) || startsWith [STAR] (trim line)).

(** [strongConstraints] *)
Definition strongConstraintsOf (lines : list jsstring) : list jsstring :=
  map trim (filter (fun line => isStrongConstraint line = true) lines).

Definition constraintParts (lines : list jsstring) : list jsstring :=
  map snd (sectionsOf lines)
  ++ match strongConstraintsOf lines with
     | [] => []
     | (_ :: _) as strong => lit "## Absolute Constraints" :: unique strong
     end.

Definition extractCriticalConstraints (text filename : jsstring) : jsstring :=
  if negb (nonEmpty text) then []
  else trim (join (NL ++ NL) (constraintParts (split_lines text))).

Definition governanceSection (file : jsstring * jsstring) : list jsstring :=
  let '(filename, content) := file in
  if negb (nonEmpty content) then []
  else
    let critical := extractCriticalConstraints content filename in
    if nonEmpty critical
    then [lit "## " ++ labelOf filename ++ NL ++ critical]
    else [].

Definition buildGovernanceContext (files : list (jsstring * jsstring)) : jsstring :=
  join (NL ++ NL) (concat (map governanceSection files)).

(** ** The cache store *)

(** [readBootstrapState], on the content of the state file if it exists. *)
Definition readBootstrapState (stateFile : option jsstring) : CacheState :=
  match stateFile with
  | None => ∅
  | Some content =>
      match JSON_parse content with
      | Some parsed =>
          if truthy parsed && typeofObject parsed then entriesOf parsed else ∅
      | None => ∅
      end
  end.

(** [writeBootstrapState]: the new content of the state file. *)
Definition writeBootstrapState (state : CacheState) : jsstring :=
  JSON_stringify state ++ NL.

(** ** The handler *)

Definition normalizedOutputOf (inv : Invocation) : jsstring :=
  normalizeNewlines (obsidianOutput inv).

Definition governanceContextOf (inv : Invocation) : jsstring :=
  buildGovernanceContext (governanceFiles inv).

Definition governanceHashOf (inv : Invocation) : jsstring :=
  computeSha256 (governanceContextOf inv).

Definition dailyHashOf (inv : Invocation) : jsstring :=
  computeSha256 (normalizedOutputOf inv).

Definition combinedHashOf (inv : Invocation) : jsstring :=
  computeSha256 (dailyHashOf inv ++ governanceHashOf inv).

(** The entry stored by the rebuild branch. *)
Definition rebuiltEntry (inv : Invocation) (dayState : option CacheEntry)
  : CacheEntry :=
  mkCacheEntry (dailyHashOf inv) (governanceHashOf inv) (combinedHashOf inv)
    (rebuildSnapshot dayState (normalizedOutputOf inv) (governanceContextOf inv))
    (Some (lineCountOf (normalizedOutputOf inv)))
    (nowIso inv).

(** The body of the [try] block, from the loaded [state] to the snapshot and
    the mapping written back. *)
Definition handlerCore (inv : Invocation) (state : CacheState) : HandlerResult :=
  let dayState := state !! today inv in
  if isCacheHit dayState (combinedHashOf inv) then
    mkHandlerResult
      (match dayState with Some entry => snapshot entry | None => [] end)
      None
  else
    let entry := rebuiltEntry inv dayState in
    mkHandlerResult (snapshot entry) (Some (<[today inv := entry]> state)).


(** The virtual file [OBSIDIAN_DAILY.md]. *)
Definition dailyArtifact (inv : Invocation) (snap : jsstring) : jsstring :=
  if nonEmpty snap then
    join NL
      [ lit "# Obsidian Context Snapshot"; []; snap; []; lit "---";
        lit "*Injected via Obsidian Pre-Prompt Hook (Governance + Daily Note)*" ]
  else
    join NL
      [ lit "# Obsidian Context Snapshot"; [];
        lit "No log entries found for today yet. Use the obsidian-life-memory skill to log events.";
        [];
        if nonEmpty (governanceContextOf inv)
        then NL ++ lit "# Behavioral Governance" ++ NL ++ governanceContextOf inv
        else [] ].

(** The handler for an [agent:bootstrap] event, when the calls to the file
    system succeed. *)
Definition handler (inv : Invocation) (stateFile : option jsstring) : Outcome :=
  let result := handlerCore inv (readBootstrapState stateFile) in
  mkOutcome
    (match written result with
     | Some state' => Some (writeBootstrapState state')
     | None => stateFile
     end)
    (lit "OBSIDIAN_DAILY.md", dailyArtifact inv (safeSnapshot result)).

(** * Properties *)

(** ** Lengths *)

Lemma strlen_nil : strlen [] = 0.
Proof. reflexivity. Qed.

Lemma strlen_cons c s : strlen (c :: s) = 1 + strlen s.
Proof. unfold strlen. simpl length. lia. Qed.

Lemma strlen_app s t : strlen (s ++ t) = strlen s + strlen t.
Proof. unfold strlen. rewrite length_app. lia. Qed.

Lemma strlen_nonneg s : 0 <= strlen s.
Proof. unfold strlen. lia. Qed.

Lemma nonEmpty_false s : nonEmpty s = false -> s = [].
Proof. by destruct s. Qed.

Lemma trimStart_suffix s : trimStart s `suffix_of` s.
Proof.
  induction s as [|c s IH]; simpl; [done|].
  destruct (isWhiteSpace c); [by apply suffix_cons_r | done].
Qed.

Lemma trimEnd_prefix s : trimEnd s `prefix_of` s.
Proof.
  induction s as [|c s IH]; simpl; [done|].
  destruct (trimEnd s) as [|d t] eqn:E.
  - destruct (isWhiteSpace c); [apply prefix_nil | by apply prefix_cons, prefix_nil].
  - by apply prefix_cons.
Qed.

Lemma strlen_trimStart s : strlen (trimStart s) <= strlen s.
Proof.
  unfold strlen. pose proof (suffix_length _ _ (trimStart_suffix s)). lia.
Qed.

Lemma strlen_trimEnd s : strlen (trimEnd s) <= strlen s.
Proof.
  unfold strlen. pose proof (prefix_length _ _ (trimEnd_prefix s)). lia.
Qed.

Lemma strlen_trim s : strlen (trim s) <= strlen s.
Proof.
  unfold trim. pose proof (strlen_trimEnd (trimStart s)).
  pose proof (strlen_trimStart s). lia.
Qed.

Lemma ceilDiv4_mono a b : a <= b -> ceilDiv4 a <= ceilDiv4 b.
Proof. intros H. unfold ceilDiv4. apply Z.div_le_mono; lia. Qed.

Lemma ceilDiv4_upper n : n <= 4 * ceilDiv4 n.
Proof. unfold ceilDiv4. pose proof (Z.mod_pos_bound (n + 3) 4).
  pose proof (Z.div_mod (n + 3) 4). lia. Qed.

Lemma ceilDiv4_le n b : n <= 4 * b -> ceilDiv4 n <= b.
Proof.
  intros H. unfold ceilDiv4. apply Z.lt_succ_r, Z.div_lt_upper_bound; lia.
Qed.

Lemma estimateTokens_trim s : estimateTokens (trim s) <= estimateTokens s.
Proof. apply ceilDiv4_mono, strlen_trim. Qed.

Lemma strlen_join_cons sep p ps :
  strlen (join sep (p :: ps)) <= strlen p + strlen sep + strlen (join sep ps).
Proof.
  destruct ps as [|q ps].
  - simpl. pose proof (strlen_nonneg sep). rewrite strlen_nil. lia.
  - change (join sep (p :: q :: ps)) with (p ++ sep ++ join sep (q :: ps)).
    rewrite !strlen_app. lia.
Qed.

(** ** The token-budget trim stays within its budget *)

Lemma keepLinesWithinTokens_fits lines : forall used tokenBudget,
  used <= tokenBudget ->
  strlen (join NL (keepLinesWithinTokens lines used tokenBudget))
  <= 4 * (tokenBudget - used).
Proof.
  induction lines as [|line rest IH]; intros used b Hle.
  - simpl. rewrite strlen_nil. lia.
  - simpl keepLinesWithinTokens.
    destruct (used + estimateTokens (line ++ NL) >? b) eqn:E.
    + simpl. rewrite strlen_nil. lia.
    + rewrite Z.gtb_ltb in E. apply Z.ltb_ge in E.
      etransitivity; [apply strlen_join_cons|].
      specialize (IH (used + estimateTokens (line ++ NL)) b E).
      pose proof (ceilDiv4_upper (strlen (line ++ NL))) as Hc.
      pose proof (strlen_app line NL) as Ha. change (strlen NL) with 1 in *.
      unfold estimateTokens in *. lia.
Qed.

Lemma trimTextToTokenBudget_fits text tokenBudget :
  estimateTokens (trimTextToTokenBudget text tokenBudget) <= Z.max 0 tokenBudget.
Proof.
  unfold trimTextToTokenBudget.
  destruct (negb _ || (tokenBudget <=? 0)) eqn:E1;
    [change (estimateTokens []) with 0; lia|].
  apply orb_false_iff in E1 as [_ Hb]. apply Z.leb_gt in Hb.
  destruct (estimateTokens _ <=? tokenBudget) eqn:E2.
  - apply Z.leb_le in E2. lia.
  - etransitivity; [apply estimateTokens_trim|].
    apply ceilDiv4_le.
    pose proof (keepLinesWithinTokens_fits
      (split_lines (trim (normalizeNewlines text))) 0 tokenBudget). lia.
Qed.

Lemma trimmedGov_fits governanceContext :
  estimateTokens (trimmedGov governanceContext) <= GOVERNANCE_TOKEN_BUDGET.
Proof.
  unfold trimmedGov. destruct (nonEmpty governanceContext); [|done].
  etransitivity; [apply trimTextToTokenBudget_fits|].
  assert (0 <= GOVERNANCE_TOKEN_BUDGET) by (by cbn). lia.
Qed.

Lemma remainingAfterGov_configured governanceContext :
  0 < remainingAfterGov governanceContext MAX_SNAPSHOT_TOKENS.
Proof.
  unfold remainingAfterGov.
  destruct (nonEmpty (trimmedGov governanceContext)); [|by cbn].
  pose proof (trimmedGov_fits governanceContext) as Hg.
  unfold estimateTokens in *. rewrite strlen_app.
  change (strlen govHeader) with 24.
  assert (ceilDiv4 (24 + strlen (trimmedGov governanceContext))
          <= 6 + ceilDiv4 (strlen (trimmedGov governanceContext))).
  { unfold ceilDiv4.
    replace (24 + strlen (trimmedGov governanceContext) + 3)
      with (strlen (trimmedGov governanceContext) + 3 + 6 * 4) by lia.
    rewrite Z.div_add by lia. lia. }
  change GOVERNANCE_TOKEN_BUDGET with 1200 in Hg.
  change MAX_SNAPSHOT_TOKENS with 3000. lia.
Qed.

Lemma trimmedDaily_fits dailyText governanceContext :
  estimateTokens (trimmedDaily dailyText governanceContext MAX_SNAPSHOT_TOKENS)
  <= Z.min (remainingAfterGov governanceContext MAX_SNAPSHOT_TOKENS)
       DAILY_TOKEN_BUDGET.
Proof.
  pose proof (remainingAfterGov_configured governanceContext) as Hr.
  assert (0 < DAILY_TOKEN_BUDGET) by (by cbn).
  unfold trimmedDaily. destruct (nonEmpty dailyText && _).
  - etransitivity; [apply trimTextToTokenBudget_fits|]. lia.
  - change (estimateTokens []) with 0. lia.
Qed.

(** C2, as amended.  With the configured total of [MAX_SNAPSHOT_TOKENS]
    tokens, the governance content placed under its header takes at most
    40% of the total, the daily content placed under its header takes at
    most 60% of the total, and the governance block with its header and the
    daily content together take at most the total.  (The daily header and
    the separator are not counted.) *)
Theorem unified_snapshot_budget_split (dailyText governanceContext : jsstring) :
  let g := trimmedGov governanceContext in
  let d := trimmedDaily dailyText governanceContext MAX_SNAPSHOT_TOKENS in
  estimateTokens g <= GOVERNANCE_TOKEN_BUDGET
  /\ estimateTokens d <= DAILY_TOKEN_BUDGET
  /\ 5 * GOVERNANCE_TOKEN_BUDGET = 2 * MAX_SNAPSHOT_TOKENS
  /\ 5 * DAILY_TOKEN_BUDGET = 3 * MAX_SNAPSHOT_TOKENS
  /\ (if nonEmpty g then estimateTokens (govHeader ++ g) else 0)
     + estimateTokens d
     <= MAX_SNAPSHOT_TOKENS.
Proof.
  intros g d.
  pose proof (trimmedGov_fits governanceContext) as Hg.
  pose proof (trimmedDaily_fits dailyText governanceContext) as Hd.
  fold g in Hg. fold d in Hd.
  split; [done|]. split; [lia|]. split; [done|]. split; [done|].
  unfold remainingAfterGov in Hd. fold g in Hd.
  destruct (nonEmpty g); lia.
Qed.

(** The assembled snapshot takes at most the total and the 11 tokens of
    the daily header and of the separator. *)
Lemma unified_snapshot_overhead (dailyText governanceContext : jsstring) :
  estimateTokens
    (buildUnifiedSnapshot dailyText governanceContext MAX_SNAPSHOT_TOKENS)
  <= MAX_SNAPSHOT_TOKENS + 11.
Proof.
  pose proof (trimmedGov_fits governanceContext) as Hg.
  pose proof (trimmedDaily_fits dailyText governanceContext) as Hd.
  unfold buildUnifiedSnapshot.
  etransitivity; [apply estimateTokens_trim|].
  apply ceilDiv4_le. unfold unifiedParts.
  set (g := trimmedGov governanceContext) in *.
  set (d := trimmedDaily dailyText governanceContext MAX_SNAPSHOT_TOKENS) in *.
  unfold remainingAfterGov in Hd. fold g in Hd.
  pose proof (ceilDiv4_upper (strlen g)) as Ug.
  pose proof (ceilDiv4_upper (strlen d)) as Ud.
  pose proof (strlen_nonneg g). pose proof (strlen_nonneg d).
  unfold estimateTokens in *.
  change GOVERNANCE_TOKEN_BUDGET with 1200 in *.
  change DAILY_TOKEN_BUDGET with 1800 in *.
  change MAX_SNAPSHOT_TOKENS with 3000 in *.
  destruct (nonEmpty g) eqn:Eg; destruct (nonEmpty d) eqn:Ed;
    rewrite ?app_nil_r, ?app_nil_l.
  - change (join blockSeparator ([govHeader ++ g] ++ [dailyHeader ++ d]))
      with ((govHeader ++ g) ++ blockSeparator ++ (dailyHeader ++ d)).
    rewrite !strlen_app. rewrite strlen_app in Hd.
    pose proof (ceilDiv4_upper (strlen govHeader + strlen g)).
    change (strlen govHeader) with 24 in *.
    change (strlen dailyHeader) with 36. change (strlen blockSeparator) with 7.
    lia.
  - change (join blockSeparator [govHeader ++ g]) with (govHeader ++ g).
    rewrite strlen_app. change (strlen govHeader) with 24. lia.
  - change (join blockSeparator [dailyHeader ++ d]) with (dailyHeader ++ d).
    rewrite strlen_app. change (strlen dailyHeader) with 36. lia.
  - simpl. rewrite strlen_nil. lia.
Qed.

(** ** The selection loops keep whole lines *)


Lemma keepLinesWithinTokens_prefix lines : forall used tokenBudget,
  keepLinesWithinTokens lines used tokenBudget `prefix_of` lines.
Proof.
  induction lines as [|line rest IH]; intros used b; simpl; [done|].
  destruct (_ >? _); [apply prefix_nil | by apply prefix_cons].
Qed.

Lemma pickLoop_sublist cands : forall used maxChars,
  pickLoop cands used maxChars `sublist_of` cands.*1.
Proof.
  induction cands as [|[i l] rest IH]; intros used m; simpl; [done|].
  destruct (_ >? _); [by apply sublist_cons | by apply sublist_skip].
Qed.

Lemma indexedFrom_cons k l lines :
  indexedFrom k (l :: lines) = (k, l) :: indexedFrom (S k) lines.
Proof. reflexivity. Qed.

Lemma indexedFrom_app k a b :
  indexedFrom k (a ++ b) = indexedFrom k a ++ indexedFrom (k + length a) b.
Proof.
  revert k. induction a as [|x a IH]; intros k.
  - simpl. by rewrite Nat.add_0_r.
  - rewrite <- app_comm_cons, !indexedFrom_cons, IH. simpl.
    by rewrite Nat.add_succ_r.
Qed.

Lemma indexedFrom_fst k lines : (indexedFrom k lines).*1 = seq k (length lines).
Proof.
  revert k. induction lines as [|l lines IH]; intros k; [done|].
  rewrite indexedFrom_cons. simpl. by rewrite IH.
Qed.

Lemma indexedFrom_lineAt k pre lines :
  length pre = k ->
  Forall (fun c => lineAt (pre ++ lines) c.1 = c.2) (indexedFrom k lines).
Proof.
  revert k pre. induction lines as [|l lines IH]; intros k pre Hk.
  - constructor.
  - rewrite indexedFrom_cons. constructor.
    + simpl. unfold lineAt. rewrite lookup_app_r by lia.
      by replace (k - length pre)%nat with 0%nat by lia.
    + replace (pre ++ l :: lines) with ((pre ++ [l]) ++ lines)
        by (by rewrite <- app_assoc).
      apply IH. rewrite length_app. simpl. lia.
Qed.

Lemma indexed_lineAt lines :
  Forall (fun c => lineAt lines c.1 = c.2) (indexed lines).
Proof. apply (indexedFrom_lineAt 0 [] lines). reflexivity. Qed.

Lemma pickFromTail_sublist lines maxChars :
  pickFromTail lines maxChars `sublist_of` reverse (seq 0 (length lines)).
Proof.
  unfold pickFromTail. etransitivity; [apply pickLoop_sublist|].
  rewrite fmap_reverse. change (indexed lines) with (indexedFrom 0 lines).
  by rewrite indexedFrom_fst.
Qed.










(** ** The backward scan of [clipFromTailByLine] is greedy *)

Lemma pickedCost_app lines p q :
  pickedCost lines (p ++ q) = pickedCost lines p + pickedCost lines q.
Proof.
  induction p as [|i p IH]; [simpl; lia|].
  change (pickedCost lines ((i :: p) ++ q))
    with (lineCost (lineAt lines i) + pickedCost lines (p ++ q)).
  change (pickedCost lines (i :: p))
    with (lineCost (lineAt lines i) + pickedCost lines p).
  lia.
Qed.

Lemma pickedCost_nonneg lines p : 0 <= pickedCost lines p.
Proof.
  induction p as [|i p IH]; [done|].
  change (pickedCost lines (i :: p))
    with (lineCost (lineAt lines i) + pickedCost lines p).
  unfold lineCost. pose proof (strlen_nonneg (lineAt lines i)). lia.
Qed.

Lemma pickLoop_cost lines cands :
  Forall (fun c => lineAt lines c.1 = c.2) cands ->
  forall used maxChars,
    used + pickedCost lines (pickLoop cands used maxChars) <= Z.max used maxChars.
Proof.
  induction 1 as [|[i l] rest Hl _ IH]; intros used m; simpl; [lia|].
  simpl in Hl. destruct (_ >? _) eqn:E.
  - apply IH.
  - rewrite Z.gtb_ltb in E. apply Z.ltb_ge in E.
    simpl. rewrite Hl. unfold lineCost.
    specialize (IH (used + (strlen l + 1)) m). lia.
Qed.

Lemma pickLoop_app lines c1 c2 :
  Forall (fun c => lineAt lines c.1 = c.2) c1 ->
  forall used maxChars,
    pickLoop (c1 ++ c2) used maxChars
    = pickLoop c1 used maxChars
      ++ pickLoop c2 (used + pickedCost lines (pickLoop c1 used maxChars)) maxChars.
Proof.
  induction 1 as [|[i l] rest Hl _ IH]; intros used m; simpl.
  - by rewrite Z.add_0_r.
  - simpl in Hl. destruct (_ >? _) eqn:E.
    + apply IH.
    + simpl. rewrite Hl, IH. unfold lineCost. do 3 f_equal. lia.
Qed.

Lemma sublist_reverse {A} (l1 l2 : list A) :
  l1 `sublist_of` l2 -> reverse l1 `sublist_of` reverse l2.
Proof.
  induction 1 as [|x l1 l2 _ IH|x l1 l2 _ IH].
  - done.
  - rewrite !reverse_cons. by apply sublist_app.
  - rewrite reverse_cons. by apply sublist_inserts_r.
Qed.

Lemma insertAscending_last i sorted :
  Forall (fun j => (j < i)%nat) sorted -> insertAscending i sorted = sorted ++ [i].
Proof.
  induction 1 as [|j rest Hj _ IH]; simpl; [done|].
  destruct (i <=? j)%nat eqn:E; [apply Nat.leb_le in E; lia|]. by rewrite IH.
Qed.

Lemma sortAscending_descending n : forall picked,
  picked `sublist_of` reverse (seq 0 n) -> sortAscending picked = reverse picked.
Proof.
  induction n as [|n IH]; intros picked Hsub.
  - apply sublist_nil_r in Hsub. by subst.
  - rewrite seq_S, reverse_snoc in Hsub. simpl in Hsub.
    apply sublist_cons_r in Hsub as [Hsub|(rest & -> & Hsub)]; [by apply IH|].
    simpl. rewrite (IH rest Hsub), reverse_cons.
    apply insertAscending_last, Forall_forall. intros j Hj.
    rewrite elem_of_reverse in Hj.
    eapply elem_of_sublist in Hj; [|exact Hsub].
    rewrite elem_of_reverse, elem_of_seq in Hj. lia.
Qed.

Lemma lineAt_seq lines : lineAt lines <$> seq 0 (length lines) = lines.
Proof.
  induction lines as [|l lines IH] using rev_ind; [done|].
  rewrite length_app, Nat.add_1_r, seq_S, fmap_app. simpl. f_equal.
  - transitivity (lineAt lines <$> seq 0 (length lines)); [|exact IH].
    apply list_fmap_ext. intros k i Hi.
    apply lookup_seq in Hi as [-> Hi]. simpl.
    unfold lineAt. by rewrite lookup_app_l.
  - unfold lineAt. by rewrite list_lookup_middle.
Qed.

Lemma pickLoop_upper k lines used maxChars i :
  i ∈ pickLoop (reverse (indexedFrom 0 (take k lines))) used maxChars ->
  (i < k)%nat.
Proof.
  intros Hi. eapply elem_of_sublist in Hi; [|apply pickLoop_sublist].
  rewrite fmap_reverse, indexedFrom_fst in Hi.
  rewrite elem_of_reverse, elem_of_seq, length_take in Hi. lia.
Qed.

Lemma pickLoop_lower k lines used maxChars i :
  i ∈ pickLoop (reverse (indexedFrom k lines)) used maxChars -> (k <= i)%nat.
Proof.
  intros Hi. eapply elem_of_sublist in Hi; [|apply pickLoop_sublist].
  rewrite fmap_reverse, indexedFrom_fst, elem_of_reverse, elem_of_seq in Hi.
  lia.
Qed.

Lemma filter_all {A} (P : A -> Prop) `{!forall x, Decision (P x)} (l : list A) :
  Forall P l -> filter P l = l.
Proof.
  induction 1 as [|x l Hx _ IH]; [done|]. by rewrite filter_cons_True, IH.
Qed.

Lemma filter_none {A} (P : A -> Prop) `{!forall x, Decision (P x)} (l : list A) :
  Forall (fun x => ~ P x) l -> filter P l = [].
Proof.
  induction 1 as [|x l Hx _ IH]; [done|]. by rewrite filter_cons_False.
Qed.

(** The scan, cut at a position [i]: the lines after [i] are examined
    first, then line [i] with what they have used. *)
Lemma pickFromTail_split lines maxChars i l :
  lines !! i = Some l ->
  let after :=
    pickLoop (reverse (indexedFrom (S i) (drop (S i) lines))) 0 maxChars in
  pickFromTail lines maxChars
  = after
    ++ pickLoop ((i, l) :: reverse (indexedFrom 0 (take i lines)))
         (pickedCost lines after) maxChars
  /\ filter (fun j => (i < j)%nat) (pickFromTail lines maxChars) = after.
Proof.
  intros Hl after.
  assert (Hi : (i < length lines)%nat) by (by eapply lookup_lt_Some).
  assert (Hsplit : reverse (indexed lines)
    = reverse (indexedFrom (S i) (drop (S i) lines))
      ++ (i, l) :: reverse (indexedFrom 0 (take i lines))).
  { change (indexed lines) with (indexedFrom 0 lines).
    rewrite <- (take_drop_middle lines i l Hl) at 1.
    rewrite indexedFrom_app, indexedFrom_cons, length_take.
    replace (0 + i `min` length lines)%nat with i by lia.
    rewrite reverse_app, reverse_cons, <- app_assoc. reflexivity. }
  assert (Hall : Forall (fun c => lineAt lines c.1 = c.2)
            (reverse (indexedFrom (S i) (drop (S i) lines)))).
  { apply Forall_reverse.
    pose proof (indexedFrom_lineAt (S i) (take (S i) lines)
                  (drop (S i) lines)) as Hd.
    rewrite take_drop in Hd. apply Hd. rewrite length_take. lia. }
  assert (Heq : pickFromTail lines maxChars
    = after
      ++ pickLoop ((i, l) :: reverse (indexedFrom 0 (take i lines)))
           (pickedCost lines after) maxChars).
  { unfold pickFromTail. rewrite Hsplit.
    rewrite (pickLoop_app lines _ _ Hall). by rewrite Z.add_0_l. }
  split; [exact Heq|].
  rewrite Heq, filter_app, filter_all, filter_none; [by rewrite app_nil_r| |].
  - apply Forall_forall. intros j Hj. simpl in Hj.
    destruct (_ >? _).
    + apply pickLoop_upper in Hj. lia.
    + apply elem_of_cons in Hj as [->|Hj]; [lia|].
      apply pickLoop_upper in Hj. lia.
  - apply Forall_forall. intros j Hj. apply pickLoop_lower in Hj. lia.
Qed.

(** C7, as amended.  The first stage scans the lines backward from the
    end and takes each line whole if it still fits in the excerpt budget,
    the lines taken so far counted with one separator each, and skips it
    otherwise, going on to the lines before it.  So the positions taken are
    distinct positions of the input in descending order, sorting them
    reverses them, the lines taken are a subsequence of the input in document
    order, they cost at most the budget, and every line not taken did not
    fit next to the lines taken after it. *)
Theorem tail_excerpt_is_greedy (lines : list jsstring) (maxChars : Z) :
  let picked := pickFromTail lines maxChars in
  picked `sublist_of` reverse (seq 0 (length lines))
  /\ sortAscending picked = reverse picked
  /\ lineAt lines <$> sortAscending picked `sublist_of` lines
  /\ pickedCost lines picked <= Z.max 0 maxChars
  /\ forall i, (i < length lines)%nat -> i ∉ picked ->
       maxChars
       < pickedCost lines (filter (fun j => (i < j)%nat) picked)
         + lineCost (lineAt lines i).
Proof.
  intros picked.
  pose proof (pickFromTail_sublist lines maxChars) as Hsub. fold picked in Hsub.
  pose proof (sortAscending_descending _ _ Hsub) as Hsort.
  split; [exact Hsub|]. split; [exact Hsort|]. split; [|split].
  - rewrite Hsort. rewrite <- (lineAt_seq lines) at 2.
    apply fmap_sublist. rewrite <- (reverse_involutive (seq 0 (length lines))).
    by apply sublist_reverse.
  - pose proof (pickLoop_cost lines _
      (proj2 (Forall_reverse _ _) (indexed_lineAt lines)) 0 maxChars). 
    unfold picked, pickFromTail. lia.
  - intros i Hi Hnot.
    destruct (lookup_lt_is_Some_2 lines i Hi) as [l Hl].
    destruct (pickFromTail_split lines maxChars i l Hl) as [Heq Hfilter].
    fold picked in Heq, Hfilter. rewrite Hfilter.
    replace (lineAt lines i) with l by (unfold lineAt; by rewrite Hl).
    simpl pickLoop in Heq.
    destruct (_ >? _) eqn:E.
    + rewrite Z.gtb_ltb in E. apply Z.ltb_lt in E. unfold lineCost. lia.
    + exfalso. apply Hnot. rewrite Heq. apply elem_of_app. right.
      apply elem_of_cons. by left.
Qed.

(** ** The delta *)

Lemma sliceFrom_drop {A} (n : nat) (l : list A) :
  sliceFrom (Z.of_nat n) l = drop n l.
Proof.
  unfold sliceFrom. destruct (Z.of_nat n <? 0) eqn:E; [apply Z.ltb_lt in E; lia|].
  destruct (decide (n <= length l)%nat).
  - by rewrite Z.min_l, Nat2Z.id by lia.
  - rewrite Z.min_r, Nat2Z.id by lia. rewrite !drop_ge; [done|lia|lia].
Qed.

(** C4, as amended.  With a prior entry for today whose checkpoint is [N]
    and a normalized note of [N + k] lines, [k > 0], the delta is the text of
    the [k] lines from index [N] to the end, joined and stripped of the white
    space at its two ends ([trim]: blank lines, and also the indentation of
    the first line and the trailing blanks of the last).  Without a prior
    entry, or when the note has no more lines than the checkpoint, the delta
    is empty. *)
Theorem delta_is_trimmed_new_lines
    (dayState : option CacheEntry) (normalizedOutput : jsstring) :
  (forall entry (N k : nat),
     dayState = Some entry ->
     lastLineCount entry = Some (Z.of_nat N) ->
     (0 < k)%nat ->
     lineCountOf normalizedOutput = Z.of_nat (N + k) ->
     length (drop N (split_lines normalizedOutput)) = k
     /\ deltaTextOf dayState normalizedOutput
        = trim (join NL (drop N (split_lines normalizedOutput))))
  /\ (dayState = None -> deltaTextOf dayState normalizedOutput = [])
  /\ (forall entry n,
        dayState = Some entry ->
        lastLineCount entry = Some n ->
        lineCountOf normalizedOutput <= n ->
        deltaTextOf dayState normalizedOutput = []).
Proof.
  split; [|split].
  - intros entry N k -> HN Hk Hcount. unfold deltaTextOf. rewrite HN.
    assert (Hlen : length (split_lines normalizedOutput) = (N + k)%nat).
    { unfold lineCountOf in Hcount. destruct (nonEmpty normalizedOutput); lia. }
    split; [rewrite length_drop; lia|].
    destruct (_ >? _) eqn:E.
    + by rewrite sliceFrom_drop.
    + rewrite Z.gtb_ltb in E. apply Z.ltb_ge in E. lia.
  - by intros ->.
  - intros entry n -> Hn Hle. unfold deltaTextOf. rewrite Hn.
    destruct (_ >? _) eqn:E; [|done].
    rewrite Z.gtb_ltb in E. apply Z.ltb_lt in E. lia.
Qed.

(** ** The cache gate *)

Lemma isCacheHit_iff (dayState : option CacheEntry) (combined : jsstring) :
  isCacheHit dayState combined = true
  <-> exists entry,
        dayState = Some entry /\ combinedHash entry = combined
        /\ snapshot entry <> [].
Proof.
  unfold isCacheHit. split.
  - destruct dayState as [entry|]; [|done].
    intros [Hh Hs]%andb_true_iff. apply bool_decide_eq_true in Hh.
    exists entry. repeat split; [done|]. by destruct (snapshot entry).
  - intros (entry & -> & Hh & Hs). apply andb_true_iff. split.
    + by apply bool_decide_eq_true.
    + by destruct (snapshot entry).
Qed.

Lemma handlerCore_hit inv state entry :
  state !! today inv = Some entry ->
  combinedHash entry = combinedHashOf inv ->
  snapshot entry <> [] ->
  handlerCore inv state = mkHandlerResult (snapshot entry) None.
Proof.
  intros He Hh Hs. unfold handlerCore.
  replace (isCacheHit (state !! today inv) (combinedHashOf inv)) with true.
  - by rewrite He.
  - symmetry. apply isCacheHit_iff. by exists entry.
Qed.

Lemma handlerCore_rebuild inv state :
  isCacheHit (state !! today inv) (combinedHashOf inv) = false ->
  handlerCore inv state
  = mkHandlerResult
      (snapshot (rebuiltEntry inv (state !! today inv)))
      (Some (<[today inv := rebuiltEntry inv (state !! today inv)]> state)).
Proof. intros Hmiss. unfold handlerCore. by rewrite Hmiss. Qed.


Lemma combinedHashOf_ext inv inv' :
  obsidianOutput inv' = obsidianOutput inv ->
  governanceFiles inv' = governanceFiles inv ->
  combinedHashOf inv' = combinedHashOf inv.
Proof.
  intros Ho Hg.
  unfold combinedHashOf, dailyHashOf, governanceHashOf, normalizedOutputOf,
    governanceContextOf.
  by rewrite Ho, Hg.
Qed.




(** ** Parts of a text that survive [join] and [trim] *)

Lemma occursIn_refl t : occursIn t t.
Proof. exists [], []. by rewrite app_nil_r. Qed.

Lemma occursIn_app_l t s before : occursIn t s -> occursIn t (before ++ s).
Proof.
  intros (b & a & ->). exists (before ++ b), a. by rewrite <- app_assoc.
Qed.

Lemma occursIn_app_r t s after : occursIn t s -> occursIn t (s ++ after).
Proof.
  intros (b & a & ->). exists b, (a ++ after). by rewrite <- !app_assoc.
Qed.

Lemma occursIn_trans t u s : occursIn t u -> occursIn u s -> occursIn t s.
Proof.
  intros Htu (b & a & ->). by apply occursIn_app_l, occursIn_app_r.
Qed.

Lemma occursIn_join sep p parts : p ∈ parts -> occursIn p (join sep parts).
Proof.
  induction parts as [|q [|r parts] IH]; intros Hp.
  - by apply elem_of_nil in Hp.
  - apply list_elem_of_singleton in Hp as ->. apply occursIn_refl.
  - change (join sep (q :: r :: parts)) with (q ++ sep ++ join sep (r :: parts)).
    apply elem_of_cons in Hp as [->|Hp].
    + apply occursIn_app_r, occursIn_refl.
    + by apply occursIn_app_l, occursIn_app_l, IH.
Qed.

Lemma trimStart_head s c t : trimStart s = c :: t -> isWhiteSpace c = false.
Proof.
  induction s as [|d s IH]; simpl; [done|].
  destruct (isWhiteSpace d) eqn:E; [done|]. by intros [= -> _].
Qed.

Lemma trimStart_keeps t after c t' :
  t = c :: t' -> isWhiteSpace c = false ->
  forall before, exists before', trimStart (before ++ t ++ after) = before' ++ t ++ after.
Proof.
  intros -> Hc. induction before as [|d before [b' IH]].
  - exists []. simpl. by rewrite Hc.
  - simpl. destruct (isWhiteSpace d).
    + by exists b'.
    + by exists (d :: before).
Qed.

Lemma trimEnd_nonempty s c :
  c ∈ s -> isWhiteSpace c = false -> trimEnd s <> [].
Proof.
  induction s as [|d s IH]; intros Hc Hw; [by apply elem_of_nil in Hc|].
  simpl. destruct (trimEnd s) eqn:E; [|done].
  apply elem_of_cons in Hc as [->|Hc]; [by rewrite Hw|].
  by destruct (IH Hc Hw).
Qed.

Lemma trimEnd_app s t : trimEnd t <> [] -> trimEnd (s ++ t) = s ++ trimEnd t.
Proof.
  intros Ht. induction s as [|c s IH]; [done|].
  simpl. rewrite IH. destruct (s ++ trimEnd t) eqn:E; [|done].
  apply app_eq_nil in E as [_ E]. by destruct Ht.
Qed.

Lemma trimEnd_cons c s :
  trimEnd (c :: s)
  = match trimEnd s with
    | [] => if isWhiteSpace c then [] else [c]
    | t => c :: t
    end.
Proof. reflexivity. Qed.

Lemma trimEnd_keeps_front t d :
  last t = Some d -> isWhiteSpace d = false ->
  forall after, exists after', trimEnd (t ++ after) = t ++ after'.
Proof.
  intros Hl Hd after. induction t as [|c t IH]; [done|].
  destruct t as [|c' t].
  - simpl in Hl. injection Hl as ->. exists (trimEnd after).
    simpl. rewrite Hd. by destruct (trimEnd after).
  - rewrite last_cons_cons in Hl. destruct (IH Hl) as [a' Ha].
    exists a'. rewrite <- app_comm_cons, trimEnd_cons, Ha. reflexivity.
Qed.

Lemma trimEnd_keeps before t d :
  last t = Some d -> isWhiteSpace d = false ->
  forall after, exists after', trimEnd (before ++ t ++ after) = before ++ t ++ after'.
Proof.
  intros Hl Hd after.
  destruct (trimEnd_keeps_front t d Hl Hd after) as [a' Ha].
  exists a'. rewrite trimEnd_app; rewrite Ha; [done|].
  destruct t; [done|discriminate].
Qed.

Lemma occursIn_trim t s : tight t -> occursIn t s -> occursIn t (trim s).
Proof.
  intros (c & d & Hh & Hl & Hc & Hd) (before & after & ->).
  destruct t as [|c0 t']; [done|]. simpl in Hh. injection Hh as ->.
  destruct (trimStart_keeps (c :: t') after c t' eq_refl Hc before) as [b' Hb].
  destruct (trimEnd_keeps b' (c :: t') d Hl Hd after) as [a' Ha].
  unfold trim. rewrite Hb, Ha. by exists b', a'.
Qed.

Lemma trimEnd_last s d : last (trimEnd s) = Some d -> isWhiteSpace d = false.
Proof.
  revert d. induction s as [|c s IH]; intros d; simpl; [done|].
  destruct (trimEnd s) as [|c' t] eqn:E.
  - destruct (isWhiteSpace c) eqn:Ec; [done|]. simpl. by intros [= <-].
  - rewrite last_cons_cons. apply IH.
Qed.

Lemma trimEnd_head s c t :
  trimEnd s = c :: t -> exists s', s = c :: s'.
Proof.
  destruct s as [|d s]; simpl; [done|].
  destruct (trimEnd s); [destruct (isWhiteSpace d)|]; intros [= -> _]; by eexists.
Qed.

Lemma trim_tight s : trim s <> [] -> tight (trim s).
Proof.
  intros Hne. unfold trim in *.
  destruct (trimEnd (trimStart s)) as [|c t] eqn:E; [done|].
  destruct (trimEnd_head _ _ _ E) as [s' Hs'].
  pose proof (trimStart_head _ _ _ Hs') as Hc.
  destruct (last (c :: t)) as [d|] eqn:El.
  - exists c, d. repeat split; [done| |].
    + exact Hc.
    + apply (trimEnd_last (trimStart s)). by rewrite E.
  - by apply last_None in El.
Qed.

Lemma trim_nonempty s c : c ∈ s -> isWhiteSpace c = false -> trim s <> [].
Proof.
  intros Hc Hw. unfold trim. apply (trimEnd_nonempty _ c); [|done].
  induction s as [|d s IH]; [by apply elem_of_nil in Hc|].
  simpl. destruct (isWhiteSpace d) eqn:Ed; [|done].
  apply elem_of_cons in Hc as [->|Hc]; [congruence|by apply IH].
Qed.

(** ** The constraint extractor *)

Lemma uniqueFrom_elem x xs : forall seen,
  x ∈ uniqueFrom seen xs <-> x ∈ xs /\ x ∉ seen.
Proof.
  induction xs as [|y xs IH]; intros seen; simpl.
  - split; [by intros H%elem_of_nil | by intros [H%elem_of_nil _]].
  - unfold seenIn. destruct (bool_decide_reflect (y ∈ seen)) as [Hy|Hy].
    + rewrite IH, elem_of_cons. split.
      * intros [Hx Hn]. split; [by right | exact Hn].
      * intros [[->|Hx] Hn]; [by destruct Hn | by split].
    + rewrite !elem_of_cons, IH, elem_of_cons. split.
      * intros [->|[Hx Hn]].
        -- split; [by left | exact Hy].
        -- split; [by right|]. intros Hs. apply Hn. by right.
      * intros [[->|Hx] Hn]; [by left|].
        destruct (decide (x = y)) as [->|Hne]; [by left|right].
        split; [exact Hx|]. intros [Heq|Hs]; [by destruct Hne | by destruct Hn].
Qed.

Lemma uniqueFrom_NoDup xs : forall seen, NoDup (uniqueFrom seen xs).
Proof.
  induction xs as [|y xs IH]; intros seen; simpl; [constructor|].
  destruct (seenIn y seen); [apply IH|].
  constructor; [|apply IH].
  rewrite uniqueFrom_elem, elem_of_cons. intros [_ H]. apply H. by left.
Qed.

Lemma unique_elem x xs : x ∈ unique xs <-> x ∈ xs.
Proof.
  unfold unique. rewrite uniqueFrom_elem. split; [by intros [? _]|].
  intros ?. split; [done|]. apply not_elem_of_nil.
Qed.

Lemma flushSection_prefix st : criticalSections st `prefix_of` flushSection st.
Proof.
  unfold flushSection. destruct (_ && _); [by apply prefix_app_r | done].
Qed.

Lemma scanLine_prefix st line :
  criticalSections st `prefix_of` criticalSections (scanLine st line).
Proof.
  unfold scanLine. destruct (headingMatch line); simpl.
  - apply flushSection_prefix.
  - destruct (_ && _ && _); simpl; [done|].
    by destruct (inCriticalSection st).
Qed.

Lemma fold_scanLine_prefix lines : forall st,
  criticalSections st `prefix_of` criticalSections (fold_left scanLine lines st).
Proof.
  induction lines as [|line lines IH]; intros st; simpl; [done|].
  etransitivity; [apply scanLine_prefix | apply IH].
Qed.

(** Inside a critical section the lines that are not headings are appended
    to the section. *)
Lemma fold_scanLine_body body : forall st,
  inCriticalSection st = true ->
  Forall (fun line => headingMatch line = None) body ->
  fold_left scanLine body st
  = mkScanState (criticalSections st) (currentSection st)
      (currentContent st ++ body) true.
Proof.
  induction body as [|line body IH]; intros st Hin Hbody.
  - simpl. rewrite app_nil_r. by destruct st; simpl in *; subst.
  - apply Forall_cons in Hbody as [Hline Hbody]. simpl fold_left.
    assert (Hstep : scanLine st line
      = mkScanState (criticalSections st) (currentSection st)
          (currentContent st ++ [line]) true).
    { unfold scanLine. rewrite Hline, Hin, andb_false_r. by rewrite Hin. }
    rewrite Hstep, IH by done. simpl. by rewrite <- app_assoc.
Qed.

Lemma spanWhile_spec p s run rest :
  spanWhile p s = (run, rest) ->
  s = run ++ rest /\ Forall (fun c => p c = true) run.
Proof.
  revert run rest. induction s as [|c s IH]; intros run rest; simpl.
  - by intros [= <- <-].
  - destruct (p c) eqn:E.
    + destruct (spanWhile p s) as [run' rest'] eqn:Es.
      intros [= <- <-]. destruct (IH _ _ eq_refl) as [-> Hall].
      split; [done|]. by constructor.
    + by intros [= <- <-].
Qed.

Lemma headingMatch_hash line title :
  headingMatch line = Some title -> HASH ∈ line.
Proof.
  unfold headingMatch, headingParts.
  destruct (spanWhile (fun c => (c =? HASH)%N) line) as [hashes rest] eqn:E.
  apply spanWhile_spec in E as [-> Hall].
  destruct hashes as [|c hashes]; [done|]. intros _.
  apply Forall_cons in Hall as [Hc _]. apply N.eqb_eq in Hc as ->.
  apply elem_of_cons. by left.
Qed.

Lemma section_captured lines pre h title body rest :
  lines = pre ++ h :: body ++ rest ->
  headingMatch h = Some title ->
  hasCriticalKeyword (toLowerCase h) = true ->
  Forall (fun line => headingMatch line = None) body ->
  (rest = [] \/ exists h2, head rest = Some h2 /\ is_Some (headingMatch h2)) ->
  (Some title, trim (join NL (h :: body))) ∈ sectionsOf lines.
Proof.
  intros -> Hh Hcrit Hbody Hrest. unfold sectionsOf.
  rewrite fold_left_app. simpl fold_left.
  set (st0 := fold_left scanLine pre initialScan).
  assert (Hst1 : scanLine st0 h
    = mkScanState (flushSection st0) (Some title) [h] true).
  { unfold scanLine. by rewrite Hh, Hcrit. }
  rewrite Hst1, fold_left_app, (fold_scanLine_body body) by done.
  simpl. set (st2 := mkScanState _ _ _ _).
  assert (Hflush : (Some title, trim (join NL (h :: body))) ∈ flushSection st2).
  { unfold flushSection, st2. simpl. apply elem_of_app. right.
    by apply list_elem_of_singleton. }
  destruct Hrest as [->|(h2 & Hhead & [title2 Hh2])].
  - exact Hflush.
  - destruct rest as [|h2' rest']; [done|]. simpl in Hhead.
    injection Hhead as ->. simpl fold_left.
    assert (Hst3 : criticalSections (scanLine st2 h2) = flushSection st2).
    { unfold scanLine. by rewrite Hh2. }
    eapply elem_of_prefix; [|apply flushSection_prefix].
    eapply elem_of_prefix; [|apply fold_scanLine_prefix].
    by rewrite Hst3.
Qed.

Lemma strongConstraint_listed lines line :
  line ∈ lines -> isStrongConstraint line = true ->
  trim line ∈ strongConstraintsOf lines.
Proof.
  intros Hin Hs. unfold strongConstraintsOf.
  change (trim line ∈ trim <$> filter (fun l => isStrongConstraint l = true) lines).
  apply list_elem_of_fmap. exists line. split; [done|].
  by apply list_elem_of_filter.
Qed.

Lemma strongConstraint_tight line :
  isStrongConstraint line = true -> tight (trim line).
Proof.
  unfold isStrongConstraint. intros [_ Hs]%andb_true_iff.
  apply trim_tight. intros Hn. rewrite Hn in Hs. by simpl in Hs.
Qed.

(** C8, as amended.  A section whose heading line contains a priority
    keyword is captured in full up to the next heading line, whatever the
    level of that heading, and its text is part of the output.  Every
    list-item line with a strong-constraint keyword gives its trimmed text
    once in the list that follows the synthesized heading
    [## Absolute Constraints], and that text is part of the output. *)
Theorem constraints_are_extracted (text filename : jsstring) :
  text <> [] ->
  let lines := split_lines text in
  let out := extractCriticalConstraints text filename in
  (forall pre h title body rest,
     lines = pre ++ h :: body ++ rest ->
     headingMatch h = Some title ->
     hasCriticalKeyword (toLowerCase h) = true ->
     Forall (fun line => headingMatch line = None) body ->
     (rest = [] \/ exists h2, head rest = Some h2 /\ is_Some (headingMatch h2)) ->
     (Some title, trim (join NL (h :: body))) ∈ sectionsOf lines
     /\ occursIn (trim (join NL (h :: body))) out)
  /\ (forall line,
        line ∈ lines ->
        isStrongConstraint line = true ->
        constraintParts lines
        = map snd (sectionsOf lines)
          ++ lit "## Absolute Constraints" :: unique (strongConstraintsOf lines)
        /\ trim line ∈ unique (strongConstraintsOf lines)
        /\ NoDup (unique (strongConstraintsOf lines))
        /\ occursIn (trim line) out).
Proof.
  intros Hne lines out.
  assert (Hout : out = trim (join (NL ++ NL) (constraintParts lines))).
  { unfold out, extractCriticalConstraints. by destruct text. }
  split.
  - intros pre h title body rest Hl Hh Hcrit Hbody Hrest.
    pose proof (section_captured lines pre h title body rest
                  Hl Hh Hcrit Hbody Hrest) as Hsec.
    split; [exact Hsec|]. rewrite Hout. apply occursIn_trim.
    + apply trim_tight, (trim_nonempty _ HASH); [|done].
      apply headingMatch_hash in Hh. simpl.
      destruct body; [done|]. apply elem_of_app. by left.
    + apply occursIn_join. unfold constraintParts. apply elem_of_app. left.
      change (trim (join NL (h :: body)) ∈ snd <$> sectionsOf lines).
      apply list_elem_of_fmap. by exists (Some title, trim (join NL (h :: body))).
  - intros line Hin Hs.
    pose proof (strongConstraint_listed lines line Hin Hs) as Hlisted.
    assert (Hparts : constraintParts lines
      = map snd (sectionsOf lines)
        ++ lit "## Absolute Constraints" :: unique (strongConstraintsOf lines)).
    { unfold constraintParts. destruct (strongConstraintsOf lines); [|done].
      by apply elem_of_nil in Hlisted. }
    split; [exact Hparts|]. split; [by apply unique_elem|].
    split; [apply uniqueFrom_NoDup|].
    rewrite Hout. apply occursIn_trim; [by apply strongConstraint_tight|].
    apply occursIn_join. rewrite Hparts. apply elem_of_app. right.
    apply elem_of_cons. right. by apply unique_elem.
Qed.

(** ** What the final guard bounds *)

Lemma boundLines_fits lines : forall used maxChars,
  used <= maxChars ->
  strlen (join NL (boundLines lines used maxChars)) <= maxChars - used.
Proof.
  induction lines as [|line rest IH]; intros used m Hle.
  - simpl. rewrite strlen_nil. lia.
  - simpl boundLines. destruct (used + (strlen line + 1) >? m) eqn:E.
    + by apply IH.
    + rewrite Z.gtb_ltb in E. apply Z.ltb_ge in E.
      etransitivity; [apply strlen_join_cons|].
      specialize (IH (used + (strlen line + 1)) m E).
      change (strlen NL) with 1. lia.
Qed.

(** The snapshot is within the budget unless the final guard ran; then it
    is the guarded text, which is within the budget, followed by two line
    breaks and the marker. *)
Lemma snapshot_overshoot_is_the_marker (raw : jsstring) (maxChars : Z) :
  strlen (buildObsidianSafeSnapshot raw maxChars) <= Z.max 0 maxChars
  \/ exists kept,
       buildObsidianSafeSnapshot raw maxChars
       = kept ++ NL ++ NL ++ truncationMarker
       /\ strlen kept <= Z.max 0 maxChars.
Proof.
  unfold buildObsidianSafeSnapshot. cbv zeta.
  destruct (nonEmpty (trim (normalizeNewlines raw))); simpl negb; cbv iota;
    [|left; rewrite strlen_nil; lia].
  destruct (strlen (trim (normalizeNewlines raw)) <=? maxChars) eqn:E1;
    [left; apply Z.leb_le in E1; lia|].
  destruct (strlen (assembleParts _) <=? maxChars) eqn:E2;
    [left; apply Z.leb_le in E2; lia|].
  right. eexists. split; [reflexivity|].
  etransitivity; [apply strlen_trim|].
  destruct (decide (0 <= maxChars)) as [Hpos|Hneg].
  - pose proof (boundLines_fits
      (split_lines (assembleParts
         (snapshotParts (trim (normalizeNewlines raw)) maxChars))) 0 maxChars Hpos).
    lia.
  - assert (Hnone : forall lines used, 0 <= used ->
              boundLines lines used maxChars = []).
    { induction lines as [|line rest IH]; intros used Hu; [done|].
      simpl. pose proof (strlen_nonneg line).
      replace (used + (strlen line + 1) >? maxChars) with true
        by (symmetry; rewrite Z.gtb_ltb; apply Z.ltb_lt; lia).
      by apply IH. }
    rewrite Hnone by lia. simpl. rewrite strlen_nil. lia.
Qed.

(** ** The extraction finds every token *)

Lemma spanWhile_app_stop p run c rest :
  Forall (fun x => p x = true) run -> p c = false ->
  spanWhile p (run ++ c :: rest) = (run, c :: rest).
Proof.
  intros Hrun Hc. induction Hrun as [|x run Hx _ IH]; simpl.
  - by rewrite Hc.
  - by rewrite Hx, IH.
Qed.

Lemma spanWhile_app_run p run after :
  Forall (fun x => p x = true) run ->
  spanWhile p (run ++ after)
  = (run ++ (spanWhile p after).1, (spanWhile p after).2).
Proof.
  intros Hrun. induction Hrun as [|x run Hx _ IH]; simpl.
  - by destruct (spanWhile p after).
  - by rewrite Hx, IH.
Qed.

Lemma notRBracket_body body :
  RBRACKET ∉ body -> Forall (fun c => notRBracket c = true) body.
Proof.
  intros Hb. apply Forall_forall. intros c Hc. unfold notRBracket.
  apply negb_true_iff, N.eqb_neq. intros ->. by apply Hb.
Qed.

Lemma matchLinkAt_token body after :
  body <> [] -> RBRACKET ∉ body ->
  matchLinkAt (LBRACKET :: LBRACKET :: body ++ [RBRACKET; RBRACKET] ++ after)
  = Some (LBRACKET :: LBRACKET :: body ++ [RBRACKET; RBRACKET]).
Proof.
  intros Hne Hb. unfold matchLinkAt. rewrite !N.eqb_refl. simpl andb.
  change ([RBRACKET; RBRACKET] ++ after) with (RBRACKET :: RBRACKET :: after).
  rewrite (spanWhile_app_stop notRBracket body RBRACKET (RBRACKET :: after));
    [|by apply notRBracket_body|reflexivity].
  destruct body; [done|]. by rewrite !N.eqb_refl.
Qed.

Lemma matchLinkAt_shape s m :
  matchLinkAt s = Some m ->
  exists m0 rest, m = m0 ++ [RBRACKET; RBRACKET] /\ s = m ++ rest.
Proof.
  unfold matchLinkAt. destruct s as [|a [|b s2]]; [done..|].
  destruct ((a =? LBRACKET)%N && (b =? LBRACKET)%N) eqn:E; [|done].
  apply andb_true_iff in E as [->%N.eqb_eq ->%N.eqb_eq].
  destruct (spanWhile notRBracket s2) as [body rest] eqn:Es.
  apply spanWhile_spec in Es as [-> _].
  destruct body as [|x body]; [done|]. destruct rest as [|c [|d rest]]; [done..|].
  destruct ((c =? RBRACKET)%N && (d =? RBRACKET)%N) eqn:E2; [|done].
  apply andb_true_iff in E2 as [->%N.eqb_eq ->%N.eqb_eq].
  intros [= <-]. exists (LBRACKET :: LBRACKET :: x :: body), rest.
  split; [done|]. simpl. by rewrite <- app_assoc.
Qed.

Lemma matchWikilinkAt_shape s m :
  matchWikilinkAt s = Some m ->
  exists m0 rest, m = m0 ++ [RBRACKET; RBRACKET] /\ s = m ++ rest.
Proof.
  unfold matchWikilinkAt. destruct s as [|c s']; [done|].
  destruct (c =? BANG)%N eqn:E.
  - apply N.eqb_eq in E as ->.
    destruct (matchLinkAt s') as [t|] eqn:Et; [|done]. intros [= <-].
    destruct (matchLinkAt_shape _ _ Et) as (m0 & rest & -> & ->).
    by exists (BANG :: m0), rest.
  - apply matchLinkAt_shape.
Qed.

(** A match that starts before a token and reaches into it holds all of
    the token. *)
Lemma match_covers_token m m0 rest before body after :
  m = m0 ++ [RBRACKET; RBRACKET] ->
  m ++ rest
  = before ++ (LBRACKET :: LBRACKET :: body ++ [RBRACKET; RBRACKET]) ++ after ->
  body <> [] -> RBRACKET ∉ body ->
  (length before < length m)%nat ->
  occursIn (LBRACKET :: LBRACKET :: body ++ [RBRACKET; RBRACKET]) m.
Proof.
  intros Hm Hs Hne Hb Hlen.
  set (tok := LBRACKET :: LBRACKET :: body ++ [RBRACKET; RBRACKET]) in *.
  destruct (decide (length before + length tok <= length m)%nat) as [Hfit|Hcut].
  - (* the token lies inside the match *)
    exists before, (drop (length before + length tok) m).
    rewrite app_assoc.
    rewrite <- (take_drop (length before + length tok) m) at 1. f_equal.
    apply (f_equal (take (length before + length tok))) in Hs.
    rewrite take_app_le in Hs by lia. rewrite Hs.
    rewrite app_assoc, take_app_le by (rewrite length_app; lia).
    rewrite take_ge by (rewrite length_app; lia). done.
  - (* the match ends inside the token: impossible *)
    exfalso.
    assert (Hm' : m = before ++ take (length m - length before) tok).
    { apply (f_equal (take (length m))) in Hs.
      rewrite take_app_le, take_ge in Hs by lia.
      rewrite take_app_ge in Hs by lia.
      rewrite take_app_le in Hs by lia. exact Hs. }
    set (n := (length m - length before)%nat) in *.
    set (tokA := LBRACKET :: LBRACKET :: body).
    assert (Htok : tok = tokA ++ [RBRACKET] ++ [RBRACKET]) by reflexivity.
    assert (HtokA : RBRACKET ∉ tokA).
    { intros Hin. apply elem_of_cons in Hin as [Hin|Hin]; [done|].
      apply elem_of_cons in Hin as [Hin|Hin]; [done|]. by apply Hb. }
    assert (Hlen_tok : length tok = (length tokA + 2)%nat).
    { rewrite Htok, !length_app. change (length [RBRACKET]) with 1%nat. lia. }
    assert (Hlast : last m = Some RBRACKET).
    { rewrite Hm. change [RBRACKET; RBRACKET] with ([RBRACKET] ++ [RBRACKET]).
      rewrite app_assoc. apply last_snoc. }
    assert (Hlast_in : forall l : jsstring,
              last l = Some RBRACKET -> RBRACKET ∈ l).
    { intros l Hl. destruct l as [|y l _] using rev_ind; [done|].
      rewrite last_snoc in Hl. injection Hl as ->.
      apply elem_of_app. right. by apply list_elem_of_singleton. }
    destruct (decide (n <= length tokA)%nat) as [Hshort|Hlong].
    + (* the match would end with a code unit of the two brackets and the body *)
      assert (Ht : take n tok = take n tokA)
        by (rewrite Htok; by rewrite take_app_le by lia).
      rewrite Ht in Hm'. rewrite Hm', last_app in Hlast.
      destruct (last (take n tokA)) as [y|] eqn:El.
      * injection Hlast as ->. apply HtokA.
        eapply elem_of_sublist; [by apply Hlast_in|apply sublist_take].
      * apply last_None in El. apply (f_equal length) in El.
        rewrite length_take in El. simpl in El. lia.
    + (* the match would end with the body's last code unit and one bracket *)
      assert (Ht : take n tok = tokA ++ [RBRACKET]).
      { rewrite Htok, app_assoc.
        rewrite take_app_le
          by (rewrite length_app; change (length [RBRACKET]) with 1%nat; lia).
        apply take_ge. rewrite length_app.
        change (length [RBRACKET]) with 1%nat. lia. }
      rewrite Ht, Hm in Hm'.
      change [RBRACKET; RBRACKET] with ([RBRACKET] ++ [RBRACKET]) in Hm'.
      rewrite !app_assoc in Hm'. apply app_inj_tail in Hm' as [Hm' _].
      apply HtokA, Hlast_in.
      apply (f_equal last) in Hm'. rewrite last_snoc, last_app in Hm'.
      destruct (last tokA) eqn:El; [done|]. by apply last_None in El.
Qed.

Lemma scanWikilinks_cons skip c s :
  scanWikilinks skip (c :: s)
  = match skip with
    | S k => scanWikilinks k s
    | O =>
        match matchWikilinkAt (c :: s) with
        | Some tok => tok :: scanWikilinks (length tok - 1) s
        | None => scanWikilinks 0 s
        end
    end.
Proof. reflexivity. Qed.

(** Every cross-reference token of the text lies in one of the matches. *)
Lemma scanWikilinks_complete body after :
  body <> [] -> RBRACKET ∉ body ->
  forall before skip,
    (skip <= length before)%nat ->
    exists m,
      m ∈ scanWikilinks skip
            (before ++ (LBRACKET :: LBRACKET :: body ++ [RBRACKET; RBRACKET])
             ++ after)
      /\ occursIn (LBRACKET :: LBRACKET :: body ++ [RBRACKET; RBRACKET]) m.
Proof.
  intros Hne Hb.
  set (tok := LBRACKET :: LBRACKET :: body ++ [RBRACKET; RBRACKET]).
  induction before as [|c before IH]; intros skip Hskip.
  - assert (skip = 0)%nat as -> by (simpl in Hskip; lia).
    exists tok. split; [|apply occursIn_refl].
    change ([] ++ tok ++ after)
      with (LBRACKET :: (LBRACKET :: body ++ [RBRACKET; RBRACKET]) ++ after).
    rewrite scanWikilinks_cons.
    assert (matchWikilinkAt
              (LBRACKET :: (LBRACKET :: body ++ [RBRACKET; RBRACKET]) ++ after)
            = Some tok) as ->.
    { unfold matchWikilinkAt.
      change (LBRACKET =? BANG)%N with false. cbv iota.
      change (LBRACKET :: (LBRACKET :: body ++ [RBRACKET; RBRACKET]) ++ after)
        with (LBRACKET :: LBRACKET :: (body ++ [RBRACKET; RBRACKET]) ++ after).
      rewrite <- app_assoc. by apply matchLinkAt_token. }
    apply elem_of_cons. by left.
  - change ((c :: before) ++ tok ++ after) with (c :: (before ++ tok ++ after)).
    rewrite scanWikilinks_cons. destruct skip as [|k].
    + destruct (matchWikilinkAt (c :: before ++ tok ++ after)) as [m|] eqn:E.
      * destruct (decide (length m - 1 <= length before)%nat) as [Hin|Hover].
        -- destruct (IH _ Hin) as (m' & Hm' & Hocc).
           exists m'. split; [|done]. apply elem_of_cons. by right.
        -- exists m. split; [apply elem_of_cons; by left|].
           destruct (matchWikilinkAt_shape _ _ E) as (m0 & rest & Hm & Hs).
           apply (match_covers_token m m0 rest (c :: before) body after);
             [done| |done|done|simpl; lia].
           by rewrite <- Hs.
      * apply IH. lia.
    + apply IH. simpl in Hskip. lia.
Qed.

Lemma tagChar_not_space c : isTagChar c = true -> isWhiteSpace c = false.
Proof.
  unfold isTagChar, isWhiteSpace. intros H.
  repeat (apply orb_true_iff in H as [H|H]);
    repeat (apply andb_true_iff in H as [H ?]);
    repeat match goal with
           | H : (_ <=? _)%N = true |- _ => apply N.leb_le in H
           | H : (_ =? _)%N = true |- _ => apply N.eqb_eq in H
           end;
    repeat (apply orb_false_iff; split);
    try (apply andb_false_iff);
    rewrite ?N.eqb_neq, ?N.leb_gt; lia.
Qed.

Lemma matchHashLabel_token run after :
  run <> [] -> Forall (fun c => isTagChar c = true) run ->
  exists more, matchHashLabel (HASH :: run ++ after) = Some (HASH :: run ++ more).
Proof.
  intros Hne Hrun. unfold matchHashLabel. rewrite N.eqb_refl.
  rewrite (spanWhile_app_run isTagChar run after Hrun).
  exists (spanWhile isTagChar after).1. by destruct run.
Qed.

Lemma matchHashLabel_shape s m :
  matchHashLabel s = Some m ->
  exists r rest,
    m = HASH :: r /\ Forall (fun c => isWhiteSpace c = false) r /\ s = m ++ rest.
Proof.
  unfold matchHashLabel. destruct s as [|c s]; [done|].
  destruct (c =? HASH)%N eqn:E; [|done]. apply N.eqb_eq in E as ->.
  destruct (spanWhile isTagChar s) as [run rest] eqn:Es.
  apply spanWhile_spec in Es as [-> Hrun].
  destruct run as [|x run]; [done|]. intros [= <-].
  exists (x :: run), rest. split; [done|]. split; [|done].
  eapply Forall_impl; [exact Hrun|]. intros y. apply tagChar_not_space.
Qed.

Lemma matchTagAt_shape atLineStart s m :
  matchTagAt atLineStart s = Some m ->
  exists x m' rest,
    m = x :: m' /\ Forall (fun c => isWhiteSpace c = false) m' /\ s = m ++ rest.
Proof.
  unfold matchTagAt.
  destruct (if atLineStart then matchHashLabel s else None) as [t|] eqn:E1.
  - intros [= <-]. destruct atLineStart; [|done].
    destruct (matchHashLabel_shape _ _ E1) as (r & rest & -> & Hr & ->).
    by exists HASH, r, rest.
  - destruct s as [|w s']; [done|]. destruct (isWhiteSpace w); [|done].
    destruct (matchHashLabel s') as [t|] eqn:E2; [|done]. intros [= <-].
    destruct (matchHashLabel_shape _ _ E2) as (r & rest & -> & Hr & ->).
    exists w, (HASH :: r), rest. split; [done|]. split; [|done].
    by constructor.
Qed.

Lemma scanTags_cons skip prev c s :
  scanTags skip prev (c :: s)
  = match skip with
    | S k => scanTags k (Some c) s
    | O =>
        match matchTagAt
                (match prev with None => true | Some p => isLineTerminator p end)
                (c :: s) with
        | Some m => m :: scanTags (length m - 1) (Some c) s
        | None => scanTags 0 (Some c) s
        end
    end.
Proof. reflexivity. Qed.

Lemma tagToken_tight t : isTagToken t -> tight t.
Proof.
  intros (run & Hne & Hrun & ->).
  destruct run as [|x run _] using rev_ind; [done|].
  exists HASH, x. split; [done|]. split; [|split; [done|]].
  - change (HASH :: run ++ [x]) with ((HASH :: run) ++ [x]). apply last_snoc.
  - rewrite Forall_forall in Hrun. apply tagChar_not_space, Hrun.
    apply elem_of_app. right. by apply list_elem_of_singleton.
Qed.

Lemma wikilinkToken_tight t : isWikilinkToken t -> tight t.
Proof.
  intros (body & _ & _ & ->). exists LBRACKET, RBRACKET.
  split; [done|]. split; [|done].
  change (LBRACKET :: LBRACKET :: body ++ [RBRACKET; RBRACKET])
    with ((LBRACKET :: LBRACKET :: body) ++ [RBRACKET] ++ [RBRACKET]).
  rewrite app_assoc. apply last_snoc.
Qed.

(** Every label token of the text lies in one of the trimmed matches. *)
Lemma scanTags_after_space run after :
  run <> [] -> Forall (fun c => isTagChar c = true) run ->
  forall before w skip prev,
    last before = Some w -> isWhiteSpace w = true ->
    (skip < length before)%nat ->
    exists m,
      m ∈ scanTags skip prev (before ++ (HASH :: run) ++ after)
      /\ occursIn (HASH :: run) (trim m).
Proof.
  intros Hne Hrun.
  assert (Htight : tight (HASH :: run)) by (apply tagToken_tight; by exists run).
  induction before as [|c before IH]; intros w skip prev Hlast Hw Hskip; [done|].
  change ((c :: before) ++ (HASH :: run) ++ after)
    with (c :: (before ++ (HASH :: run) ++ after)).
  rewrite scanTags_cons.
  destruct before as [|c' before].
  - (* the white space before the token *)
    simpl in Hlast. injection Hlast as ->.
    assert (skip = 0)%nat as -> by (simpl in Hskip; lia).
    destruct (matchHashLabel_token run after Hne Hrun) as [more Hmore].
    assert (Hm : matchTagAt
                   (match prev with None => true | Some p => isLineTerminator p end)
                   (w :: [] ++ (HASH :: run) ++ after)
                 = Some (w :: HASH :: run ++ more)).
    { unfold matchTagAt.
      assert (matchHashLabel (w :: [] ++ (HASH :: run) ++ after) = None) as Hnone.
      { unfold matchHashLabel. destruct (w =? HASH)%N eqn:E; [|done].
        apply N.eqb_eq in E as ->. done. }
      rewrite Hnone. destruct (match prev with None => _ | Some _ => _ end);
        rewrite Hw; simpl app; by rewrite Hmore. }
    rewrite Hm. exists (w :: HASH :: run ++ more).
    split; [apply elem_of_cons; by left|].
    apply occursIn_trim; [done|]. by exists [w], more.
  - rewrite last_cons_cons in Hlast.
    assert (Hpos : (0 < length (c' :: before))%nat) by (simpl; lia).
    set (pre := c' :: before) in *. clearbody pre.
    destruct skip as [|k].
    + destruct (matchTagAt _ _) as [m|] eqn:E.
      * destruct (decide (length m - 1 < length pre)%nat) as [Hin|Hover].
        -- destruct (IH w _ (Some c) Hlast Hw Hin) as (m' & Hm' & Hocc).
           exists m'. split; [|done]. apply elem_of_cons. by right.
        -- (* the match would hold the white space before the token *)
           exfalso.
           destruct (matchTagAt_shape _ _ _ E) as (x & m' & rest & -> & Hm' & Hs).
           change ((x :: m') ++ rest) with (x :: (m' ++ rest)) in Hs.
           injection Hs as _ Hs. simpl in Hover.
           assert (Hpre : take (length pre) m' = pre).
           { apply (f_equal (take (length pre))) in Hs.
             rewrite take_app_length in Hs.
             rewrite take_app_le in Hs by lia. by symmetry. }
           assert (Hin : w ∈ m').
           { eapply elem_of_sublist; [|apply (sublist_take _ (length pre))].
             rewrite Hpre. destruct pre as [|y l _] using rev_ind; [done|].
             rewrite last_snoc in Hlast. injection Hlast as ->.
             apply elem_of_app. right. by apply list_elem_of_singleton. }
           rewrite Forall_forall in Hm'. specialize (Hm' w Hin). congruence.
      * apply (IH w); [done|done|lia].
    + apply (IH w); [done|done|simpl in Hskip; lia].
Qed.

Lemma scanTags_complete t text :
  tagOccursIn t text ->
  exists m, m ∈ scanTags 0 None text /\ occursIn t (trim m).
Proof.
  intros [(run & Hne & Hrun & ->) (before & after & -> & Hbefore)].
  destruct Hbefore as [->|(w & Hlast & Hw)].
  - destruct (matchHashLabel_token run after Hne Hrun) as [more Hmore].
    exists (HASH :: run ++ more). split.
    + change ([] ++ (HASH :: run) ++ after) with (HASH :: run ++ after).
      rewrite scanTags_cons. unfold matchTagAt. rewrite Hmore.
      apply elem_of_cons. by left.
    + apply occursIn_trim; [apply tagToken_tight; by exists run|].
      by exists [], more.
  - apply (scanTags_after_space run after Hne Hrun before w 0%nat None Hlast Hw).
    destruct before; [done|]. simpl. lia.
Qed.

(** [includes] decides [occursIn]. *)
Lemma startsWith_spec p s : startsWith p s = true <-> exists rest, s = p ++ rest.
Proof.
  revert s. induction p as [|a p IH]; intros s; simpl.
  - split; [by exists s | done].
  - destruct s as [|b s].
    + split; [done | by intros [rest ?]].
    + rewrite andb_true_iff, N.eqb_eq, IH. split.
      * intros [-> [rest ->]]. by exists rest.
      * intros [rest [= -> ->]]. split; [done | by exists rest].
Qed.

Lemma includes_spec t s : includes t s = true <-> occursIn t s.
Proof.
  induction s as [|c s IH]; simpl.
  - rewrite orb_false_r, startsWith_spec. split.
    + intros [rest Hr]. by exists [], rest.
    + intros (before & after & Heq). symmetry in Heq.
      apply app_eq_nil in Heq as [-> Heq]. by exists after.
  - rewrite orb_true_iff, IH, startsWith_spec. split.
    + intros [[rest ->]|(before & after & ->)].
      * by exists [], rest.
      * by exists (c :: before), after.
    + intros (before & after & Heq). destruct before as [|b before].
      * left. by exists after.
      * right. injection Heq as -> ->. by exists before, after.
Qed.

(** ** The sections of the snapshot *)

Lemma occursIn_nonempty t s : tight t -> occursIn t s -> nonEmpty s = true.
Proof.
  intros (c & d & Hh & _) (before & after & ->).
  destruct t; [done|]. by destruct before.
Qed.

Lemma part_survives parts part token :
  part ∈ parts -> occursIn token part -> tight token ->
  occursIn token (assembleParts parts).
Proof.
  intros Hin Hocc Ht. unfold assembleParts. apply occursIn_trim; [done|].
  eapply occursIn_trans; [exact Hocc|]. apply occursIn_join.
  apply list_elem_of_filter. split; [|done]. by eapply occursIn_nonempty.
Qed.

Lemma section_join heading items sep item :
  item ∈ items -> join sep items ∈ section heading items sep.
Proof.
  intros Hin. unfold section. destruct items; [by apply elem_of_nil in Hin|].
  apply elem_of_cons. right. apply elem_of_cons. by left.
Qed.

Lemma snapshot_when_sections_fit raw maxChars :
  let text := trim (normalizeNewlines raw) in
  nonEmpty text = true ->
  maxChars < strlen text ->
  strlen (assembleParts (snapshotParts text maxChars)) <= maxChars ->
  buildObsidianSafeSnapshot raw maxChars
  = assembleParts (snapshotParts text maxChars).
Proof.
  intros text Hne Hover Hfit. unfold buildObsidianSafeSnapshot. cbv zeta.
  fold text. rewrite Hne.
  replace (strlen text <=? maxChars) with false
    by (symmetry; apply Z.leb_gt; lia).
  replace (strlen (assembleParts (snapshotParts text maxChars)) <=? maxChars)
    with true by (symmetry; apply Z.leb_le; lia).
  reflexivity.
Qed.

(** C5, as amended.  For an input that exceeds the budget and whose
    assembled sections fit in the budget, so that the final guard does not
    run, every cross-reference token and every label token present in the
    input is part of the output. *)
Theorem tokens_survive_when_sections_fit
    (raw : jsstring) (maxChars : Z) (token : jsstring) :
  let text := trim (normalizeNewlines raw) in
  maxChars < strlen text ->
  strlen (assembleParts (snapshotParts text maxChars)) <= maxChars ->
  (isWikilinkToken token /\ occursIn token text) \/ tagOccursIn token text ->
  occursIn token (buildObsidianSafeSnapshot raw maxChars).
Proof.
  intros text Hover Hfit Htoken.
  assert (Htight : tight token).
  { destruct Htoken as [[Hw _]|[Ht _]];
      [by apply wikilinkToken_tight | by apply tagToken_tight]. }
  assert (Hne : nonEmpty text = true).
  { destruct Htoken as [[_ Hocc]|[_ (b & a & Heq & _)]].
    - by eapply occursIn_nonempty.
    - apply (occursIn_nonempty token); [done|]. by exists b, a. }
  rewrite (snapshot_when_sections_fit raw maxChars Hne Hover Hfit). fold text.
  destruct Htoken as [[(body & Hb1 & Hb2 & ->) (before & after & Htext)]|Htag].
  - destruct (scanWikilinks_complete body after Hb1 Hb2 before 0%nat)
      as (m & Hm & Hocc); [lia|].
    rewrite <- Htext in Hm.
    apply (part_survives _ (join [SPACE] (extractWikilinks text))); [| |done].
    + unfold snapshotParts. apply elem_of_app. right. apply elem_of_app. right.
      apply elem_of_app. left. apply (section_join _ _ _ m).
      by apply unique_elem.
    + eapply occursIn_trans; [exact Hocc|]. apply occursIn_join.
      by apply unique_elem.
  - destruct (scanTags_complete token text Htag) as (m & Hm & Hocc).
    assert (Hin : trim m ∈ extractTags text).
    { apply unique_elem. change (trim m ∈ trim <$> scanTags 0 None text).
      apply list_elem_of_fmap. by exists m. }
    apply (part_survives _ (join [SPACE] (extractTags text))); [| |done].
    + unfold snapshotParts. apply elem_of_app. right. apply elem_of_app. right.
      apply elem_of_app. right. apply elem_of_app. left.
      by apply (section_join _ _ _ (trim m)).
    + eapply occursIn_trans; [exact Hocc|]. by apply occursIn_join.
Qed.

(** * Further properties of the hook *)

(** ** Lines, line breaks and trimming *)

Lemma split_lines_nonempty s : split_lines s <> [].
Proof.
  destruct s as [|c s]; [done|]. simpl.
  destruct (c =? LF)%N; [done|]. by destruct (split_lines s).
Qed.

Lemma join_split_lines s : join NL (split_lines s) = s.
Proof.
  induction s as [|c s IH]; [done|]. simpl split_lines.
  pose proof (split_lines_nonempty s) as Hne.
  destruct (split_lines s) as [|l ls] eqn:El; [done|].
  destruct (c =? LF)%N eqn:E.
  - apply N.eqb_eq in E as ->.
    change (join NL ([] :: l :: ls)) with ([] ++ NL ++ join NL (l :: ls)).
    by rewrite IH.
  - rewrite <- IH. by destruct ls.
Qed.

Lemma split_lines_app a b :
  split_lines (a ++ NL ++ b) = split_lines a ++ split_lines b.
Proof.
  induction a as [|c a IH]; [done|].
  simpl in IH |- *. rewrite IH.
  destruct (c =? LF)%N; [done|].
  pose proof (split_lines_nonempty a). by destruct (split_lines a).
Qed.

Lemma split_lines_no_break s : LF ∉ s -> split_lines s = [s].
Proof.
  induction s as [|c s IH]; intros Hs; [done|]. simpl.
  destruct (c =? LF)%N eqn:E.
  - apply N.eqb_eq in E as ->. destruct Hs. apply elem_of_cons. by left.
  - rewrite IH; [done|]. intros ?. apply Hs. apply elem_of_cons. by right.
Qed.

Lemma join_app_nonempty sep (ps qs : list jsstring) :
  ps <> [] -> qs <> [] -> join sep (ps ++ qs) = join sep ps ++ sep ++ join sep qs.
Proof.
  intros Hp Hq. induction ps as [|p [|p' ps] IH]; [done| |].
  - destruct qs; [done|]. reflexivity.
  - change (join sep ((p :: p' :: ps) ++ qs))
      with (p ++ sep ++ join sep ((p' :: ps) ++ qs)).
    rewrite IH by done.
    change (join sep (p :: p' :: ps)) with (p ++ sep ++ join sep (p' :: ps)).
    by rewrite <- !app_assoc.
Qed.

Lemma join_prefix sep (ps qs : list jsstring) :
  ps `prefix_of` qs -> join sep ps `prefix_of` join sep qs.
Proof.
  intros [rest ->]. destruct ps as [|p ps]; [apply prefix_nil|].
  destruct rest as [|r rest]; [by rewrite app_nil_r|].
  rewrite join_app_nonempty by done. by apply prefix_app_r.
Qed.

Lemma normalizeNewlines_no_return s : CR ∉ normalizeNewlines s.
Proof.
  assert (H : forall n s, (length s <= n)%nat -> CR ∉ normalizeNewlines s).
  { clear s. induction n as [|n IH]; intros [|c s] Hlen; simpl in *;
      try apply not_elem_of_nil; [lia|].
    destruct (c =? CR)%N eqn:E.
    - intros Hin. apply elem_of_cons in Hin as [Hin|Hin]; [done|].
      destruct s as [|d s]; [by apply elem_of_nil in Hin|].
      destruct (d =? LF)%N; revert Hin; apply IH; simpl in *; lia.
    - apply N.eqb_neq in E. intros Hin.
      apply elem_of_cons in Hin as [Hin|Hin]; [done|].
      revert Hin. apply IH. lia. }
  by apply (H (length s)).
Qed.

Lemma normalizeNewlines_fixed s : CR ∉ s -> normalizeNewlines s = s.
Proof.
  induction s as [|c s IH]; intros Hs; [done|]. simpl.
  destruct (c =? CR)%N eqn:E.
  - apply N.eqb_eq in E as ->. destruct Hs. apply elem_of_cons. by left.
  - rewrite IH; [done|]. intros ?. apply Hs. apply elem_of_cons. by right.
Qed.

Lemma normalizeNewlines_blank s :
  Forall (fun c => isWhiteSpace c = true) s ->
  Forall (fun c => isWhiteSpace c = true) (normalizeNewlines s).
Proof.
  assert (H : forall n s, (length s <= n)%nat ->
            Forall (fun c => isWhiteSpace c = true) s ->
            Forall (fun c => isWhiteSpace c = true) (normalizeNewlines s)).
  { clear s. induction n as [|n IH]; intros [|c s] Hlen Hs;
      [constructor | simpl in Hlen; lia | constructor |].
    apply Forall_cons in Hs as [Hc Hs]. simpl in Hlen. simpl.
    destruct (c =? CR)%N.
    - constructor; [done|]. destruct s as [|d s]; [constructor|].
      destruct (d =? LF)%N.
      + apply Forall_cons in Hs as [Hd Hs']. apply IH; [simpl in Hlen; lia|done].
      + apply IH; [lia|done].
    - constructor; [done|]. apply IH; [lia|done]. }
  by apply (H (length s)).
Qed.

Lemma trimStart_blank s :
  Forall (fun c => isWhiteSpace c = true) s -> trimStart s = [].
Proof. induction 1 as [|c s Hc _ IH]; simpl; [done|]. by rewrite Hc. Qed.

Lemma trim_blank s : Forall (fun c => isWhiteSpace c = true) s -> trim s = [].
Proof. intros Hs. unfold trim. by rewrite trimStart_blank. Qed.

Lemma trimStart_fixed s c t :
  s = c :: t -> isWhiteSpace c = false -> trimStart s = s.
Proof. intros -> Hc. simpl. by rewrite Hc. Qed.

Lemma trimEnd_fixed s d :
  last s = Some d -> isWhiteSpace d = false -> trimEnd s = s.
Proof.
  intros Hl Hd. destruct (trimEnd_keeps_front s d Hl Hd []) as [after Ha].
  rewrite app_nil_r in Ha. pose proof (trimEnd_prefix s) as [rest Hrest].
  rewrite Ha in Hrest. rewrite Ha.
  apply (f_equal length) in Hrest. rewrite !length_app in Hrest.
  destruct after; [by rewrite app_nil_r | simpl in Hrest; lia].
Qed.

Lemma trim_fixed s : tight s -> trim s = s.
Proof.
  intros (c & d & Hh & Hl & Hc & Hd). unfold trim.
  destruct s as [|c' t]; [done|]. simpl in Hh. injection Hh as ->.
  rewrite (trimStart_fixed _ c t eq_refl Hc). by apply (trimEnd_fixed _ d).
Qed.

Lemma trim_idempotent s : trim (trim s) = trim s.
Proof.
  destruct (trim s) as [|c t] eqn:E; [done|]. rewrite <- E.
  apply trim_fixed, trim_tight. by rewrite E.
Qed.

Lemma prefix_is_sublist {A} (l k : list A) : l `prefix_of` k -> l `sublist_of` k.
Proof. intros [rest ->]. by apply sublist_inserts_r. Qed.

Lemma suffix_is_sublist {A} (l k : list A) : l `suffix_of` k -> l `sublist_of` k.
Proof. intros [rest ->]. by apply sublist_inserts_l. Qed.

Lemma trim_sublist s : trim s `sublist_of` s.
Proof.
  unfold trim. etransitivity.
  - apply prefix_is_sublist, trimEnd_prefix.
  - apply suffix_is_sublist, trimStart_suffix.
Qed.

Lemma occursIn_trim_self s : occursIn (trim s) s.
Proof.
  destruct (trimStart_suffix s) as [before Hb].
  destruct (trimEnd_prefix (trimStart s)) as [after Ha].
  exists before, after. unfold trim. by rewrite <- Ha.
Qed.

(** ** The token-budget trim *)

Lemma trimTextToTokenBudget_cases text tokenBudget :
  let normalized := trim (normalizeNewlines text) in
  trimTextToTokenBudget text tokenBudget = []
  \/ trimTextToTokenBudget text tokenBudget = normalized
  \/ trimTextToTokenBudget text tokenBudget
     = trim (join NL (keepLinesWithinTokens (split_lines normalized) 0 tokenBudget)).
Proof.
  intros normalized. unfold trimTextToTokenBudget. fold normalized.
  destruct (_ || _); [by left|]. destruct (_ <=? _); [right; by left|].
  right. by right.
Qed.

Lemma trimTextToTokenBudget_nonpositive text tokenBudget :
  tokenBudget <= 0 -> trimTextToTokenBudget text tokenBudget = [].
Proof.
  intros Hle. unfold trimTextToTokenBudget.
  replace (tokenBudget <=? 0) with true by (symmetry; apply Z.leb_le; lia).
  by rewrite orb_true_r.
Qed.

Lemma trimTextToTokenBudget_trimmed text tokenBudget :
  trim (trimTextToTokenBudget text tokenBudget)
  = trimTextToTokenBudget text tokenBudget.
Proof.
  destruct (trimTextToTokenBudget_cases text tokenBudget) as [-> | [-> | ->]];
    [done | apply trim_idempotent..].
Qed.

Lemma trimTextToTokenBudget_no_return text tokenBudget :
  CR ∉ trimTextToTokenBudget text tokenBudget.
Proof.
  assert (Hn : CR ∉ trim (normalizeNewlines text)).
  { intros Hin. eapply elem_of_sublist in Hin; [|apply trim_sublist].
    by apply normalizeNewlines_no_return in Hin. }
  destruct (trimTextToTokenBudget_cases text tokenBudget) as [-> | [-> | ->]];
    [apply not_elem_of_nil | done |].
  intros Hin. eapply elem_of_sublist in Hin; [|apply trim_sublist].
  apply Hn. rewrite <- (join_split_lines (trim (normalizeNewlines text))).
  eapply elem_of_sublist; [exact Hin|].
  apply prefix_is_sublist, join_prefix, keepLinesWithinTokens_prefix.
Qed.

(** A text without carriage return and without surrounding white space
    that fits the budget passes unchanged. *)
Lemma trimTextToTokenBudget_stable s tokenBudget :
  CR ∉ s -> trim s = s -> estimateTokens s <= tokenBudget ->
  trimTextToTokenBudget s tokenBudget = s.
Proof.
  intros Hcr Htrim Hfit. unfold trimTextToTokenBudget.
  rewrite (normalizeNewlines_fixed s Hcr), Htrim.
  destruct s as [|c s]; [reflexivity|].
  assert (0 < tokenBudget).
  { unfold estimateTokens, ceilDiv4 in Hfit. rewrite strlen_cons in Hfit.
    pose proof (strlen_nonneg s).
    assert (1 <= (1 + strlen s + 3) / 4) by (apply Z.div_le_lower_bound; lia).
    lia. }
  simpl negb. simpl orb.
  replace (tokenBudget <=? 0) with false by (symmetry; apply Z.leb_gt; lia).
  by replace (estimateTokens (c :: s) <=? tokenBudget) with true
    by (symmetry; apply Z.leb_le; lia).
Qed.

(** X1.  [trimTextToTokenBudget] keeps the text within the budget; what it
    returns is a beginning of the normalized text (line endings unified,
    surrounding white space removed), without carriage return and without
    surrounding white space. *)
Theorem token_trim_is_bounded_prefix (text : jsstring) (tokenBudget : Z) :
  estimateTokens (trimTextToTokenBudget text tokenBudget) <= Z.max 0 tokenBudget
  /\ trimTextToTokenBudget text tokenBudget
     `prefix_of` trim (normalizeNewlines text)
  /\ (CR ∉ trimTextToTokenBudget text tokenBudget)
  /\ trim (trimTextToTokenBudget text tokenBudget)
     = trimTextToTokenBudget text tokenBudget.
Proof.
  split; [apply trimTextToTokenBudget_fits|].
  split; [|split;
    [apply trimTextToTokenBudget_no_return|apply trimTextToTokenBudget_trimmed]].
  set (normalized := trim (normalizeNewlines text)).
  destruct (trimTextToTokenBudget_cases text tokenBudget) as [-> | [-> | ->]];
    [apply prefix_nil | done |]. fold normalized.
  set (kept := keepLinesWithinTokens (split_lines normalized) 0 tokenBudget).
  assert (Hpre : join NL kept `prefix_of` normalized).
  { pose proof (join_prefix NL _ _
      (keepLinesWithinTokens_prefix (split_lines normalized) 0 tokenBudget)) as Hp.
    by rewrite join_split_lines in Hp. }
  destruct (join NL kept) as [|c t] eqn:Ej; [apply prefix_nil|].
  assert (Hc : isWhiteSpace c = false).
  { destruct Hpre as [rest Hrest]. unfold normalized, trim in Hrest.
    destruct (trimEnd_head _ _ _ Hrest) as [s' Hs'].
    by eapply trimStart_head. }
  unfold trim. rewrite (trimStart_fixed _ c t eq_refl Hc).
  etransitivity; [apply trimEnd_prefix|exact Hpre].
Qed.

(** X2.  Trimming to the same budget twice changes nothing more. *)
Theorem token_trim_idempotent (text : jsstring) (tokenBudget : Z) :
  trimTextToTokenBudget (trimTextToTokenBudget text tokenBudget) tokenBudget
  = trimTextToTokenBudget text tokenBudget.
Proof.
  destruct (decide (0 < tokenBudget)) as [Hpos|Hneg].
  - apply trimTextToTokenBudget_stable.
    + apply trimTextToTokenBudget_no_return.
    + apply trimTextToTokenBudget_trimmed.
    + pose proof (trimTextToTokenBudget_fits text tokenBudget). lia.
  - rewrite (trimTextToTokenBudget_nonpositive text) by lia.
    apply trimTextToTokenBudget_nonpositive. lia.
Qed.

Lemma trimTextToTokenBudget_blank raw budget :
  Forall (fun c => isWhiteSpace c = true) raw ->
  trimTextToTokenBudget raw budget = [].
Proof.
  intros Hblank. unfold trimTextToTokenBudget.
  by rewrite (trim_blank _ (normalizeNewlines_blank _ Hblank)).
Qed.

Lemma buildObsidianSafeSnapshot_blank raw maxChars :
  Forall (fun c => isWhiteSpace c = true) raw ->
  buildObsidianSafeSnapshot raw maxChars = [].
Proof.
  intros Hblank. unfold buildObsidianSafeSnapshot.
  by rewrite (trim_blank _ (normalizeNewlines_blank _ Hblank)).
Qed.

(** X3.  A text of white space only gives the empty string, in the
    token-budget trim and in the structural truncator. *)
Theorem blank_text_gives_nothing (raw : jsstring) (budget : Z) :
  Forall (fun c => isWhiteSpace c = true) raw ->
  trimTextToTokenBudget raw budget = []
  /\ buildObsidianSafeSnapshot raw budget = [].
Proof.
  intros Hblank. split;
    [by apply trimTextToTokenBudget_blank|by apply buildObsidianSafeSnapshot_blank].
Qed.

(** ** Snapshots *)

Lemma tight_nonempty t : tight t -> t <> [].
Proof. by intros (c & d & Hh & _) ->. Qed.

Lemma tight_of_trimmed t : t <> [] -> trim t = t -> tight t.
Proof. intros Hne Ht. rewrite <- Ht. apply trim_tight. by rewrite Ht. Qed.

Lemma tight_app_r x t c :
  head x = Some c -> isWhiteSpace c = false -> tight t -> tight (x ++ t).
Proof.
  intros Hx Hc (c' & d & Hh & Hl & _ & Hd). exists c, d.
  split; [by destruct x|]. split; [|done]. by rewrite last_app, Hl.
Qed.

Lemma tight_app a m b : tight a -> tight b -> tight (a ++ m ++ b).
Proof.
  intros (c & d & Hh & Hl & Hc & Hd) (c' & d' & Hh' & Hl' & Hc' & Hd').
  exists c, d'. split; [by destruct a|]. split; [|done].
  by rewrite !last_app, Hl'.
Qed.

Lemma nonEmpty_true t : nonEmpty t = true -> t <> [].
Proof. by destruct t. Qed.

Lemma trimTextToTokenBudget_tight text tokenBudget :
  nonEmpty (trimTextToTokenBudget text tokenBudget) = true ->
  tight (trimTextToTokenBudget text tokenBudget).
Proof.
  intros Hne. apply tight_of_trimmed;
    [by apply nonEmpty_true | apply trimTextToTokenBudget_trimmed].
Qed.

Lemma trimmedGov_tight governanceContext :
  nonEmpty (trimmedGov governanceContext) = true ->
  tight (trimmedGov governanceContext).
Proof.
  unfold trimmedGov. destruct (nonEmpty governanceContext); [|done].
  apply trimTextToTokenBudget_tight.
Qed.

Lemma trimmedDaily_tight dailyText governanceContext tokenBudget :
  nonEmpty (trimmedDaily dailyText governanceContext tokenBudget) = true ->
  tight (trimmedDaily dailyText governanceContext tokenBudget).
Proof.
  unfold trimmedDaily. destruct (_ && _); [|done].
  apply trimTextToTokenBudget_tight.
Qed.

(** X4.  The structural truncator returns the normalized note itself when
    it fits, and never more than the limit plus the 67 code units of the
    truncation marker and its blank line. *)
Theorem safe_snapshot_length (raw : jsstring) (maxChars : Z) :
  strlen (buildObsidianSafeSnapshot raw maxChars) <= Z.max 0 maxChars + 67
  /\ (strlen (trim (normalizeNewlines raw)) <= maxChars ->
      buildObsidianSafeSnapshot raw maxChars = trim (normalizeNewlines raw)).
Proof.
  split.
  - destruct (snapshot_overshoot_is_the_marker raw maxChars)
      as [Hle | (kept & -> & Hkept)]; [lia|].
    rewrite !strlen_app. change (strlen NL) with 1.
    change (strlen truncationMarker) with 65. lia.
  - intros Hfit. unfold buildObsidianSafeSnapshot. cbv zeta.
    destruct (trim (normalizeNewlines raw)) as [|c t] eqn:E; [done|].
    simpl negb. cbv iota.
    by replace (strlen (c :: t) <=? maxChars) with true
      by (symmetry; apply Z.leb_le; lia).
Qed.

Lemma buildTokenAwareSnapshot_without_delta fullSnapshot tokenBudget :
  buildTokenAwareSnapshot [] fullSnapshot tokenBudget
  = trimTextToTokenBudget fullSnapshot tokenBudget.
Proof.
  unfold buildTokenAwareSnapshot, deltaBlockOf. simpl nonEmpty. cbv iota zeta.
  simpl app.
  destruct (decide (0 < tokenBudget)) as [Hpos|Hneg].
  - replace (tokenBudget >? 0) with true
      by (symmetry; rewrite Z.gtb_ltb; apply Z.ltb_lt; lia).
    rewrite andb_true_r.
    destruct fullSnapshot as [|c s] eqn:Ef; [reflexivity|]. simpl nonEmpty.
    cbv iota. rewrite <- Ef.
    destruct (trimTextToTokenBudget fullSnapshot tokenBudget) as [|d t] eqn:Et.
    + simpl. unfold trimTextToTokenBudget. reflexivity.
    + simpl nonEmpty. cbv iota. simpl join. rewrite <- Et.
      apply trimTextToTokenBudget_stable.
      * apply trimTextToTokenBudget_no_return.
      * apply trimTextToTokenBudget_trimmed.
      * pose proof (trimTextToTokenBudget_fits fullSnapshot tokenBudget). lia.
  - rewrite (trimTextToTokenBudget_nonpositive fullSnapshot) by lia.
    apply trimTextToTokenBudget_nonpositive. lia.
Qed.

(** X5.  The delta-first snapshot stays within its token budget, and
    without a delta it is the summary trimmed to the budget. *)
Theorem token_aware_snapshot_budget (deltaText fullSnapshot : jsstring)
    (tokenBudget : Z) :
  estimateTokens (buildTokenAwareSnapshot deltaText fullSnapshot tokenBudget)
  <= Z.max 0 tokenBudget
  /\ buildTokenAwareSnapshot [] fullSnapshot tokenBudget
     = trimTextToTokenBudget fullSnapshot tokenBudget.
Proof.
  split; [apply trimTextToTokenBudget_fits
         |apply buildTokenAwareSnapshot_without_delta].
Qed.

Lemma buildUnifiedSnapshot_blocks (dailyText governanceContext : jsstring)
    (tokenBudget : Z) :
  let g := trimmedGov governanceContext in
  let d := trimmedDaily dailyText governanceContext tokenBudget in
  buildUnifiedSnapshot dailyText governanceContext tokenBudget
  = match nonEmpty g, nonEmpty d with
    | true, true => govHeader ++ g ++ blockSeparator ++ dailyHeader ++ d
    | true, false => govHeader ++ g
    | false, true => dailyHeader ++ d
    | false, false => []
    end.
Proof.
  intros g d. unfold buildUnifiedSnapshot, unifiedParts. fold g d.
  pose proof (trimmedGov_tight governanceContext) as Hg.
  pose proof (trimmedDaily_tight dailyText governanceContext tokenBudget) as Hd.
  fold g in Hg. fold d in Hd.
  assert (Hgh : nonEmpty g = true -> tight (govHeader ++ g)).
  { intros Hne. by apply (tight_app_r _ _ HASH); [done..|apply Hg]. }
  assert (Hdh : nonEmpty d = true -> tight (dailyHeader ++ d)).
  { intros Hne. by apply (tight_app_r _ _ HASH); [done..|apply Hd]. }
  destruct (nonEmpty g), (nonEmpty d).
  - change (trim ((govHeader ++ g) ++ blockSeparator ++ dailyHeader ++ d)
            = govHeader ++ g ++ blockSeparator ++ dailyHeader ++ d).
    rewrite <- (app_assoc govHeader g). apply trim_fixed.
    rewrite (app_assoc govHeader g). apply tight_app; [by apply Hgh|by apply Hdh].
  - change (trim (govHeader ++ g) = govHeader ++ g).
    apply trim_fixed. by apply Hgh.
  - change (trim (dailyHeader ++ d) = dailyHeader ++ d).
    apply trim_fixed. by apply Hdh.
  - reflexivity.
Qed.

(** X6.  The unified snapshot is exactly its blocks joined by the
    separator: the governance block under its header first, the daily block
    under its header after it; the final trim removes nothing. *)
Theorem unified_snapshot_layout (dailyText governanceContext : jsstring)
    (tokenBudget : Z) :
  let g := trimmedGov governanceContext in
  let d := trimmedDaily dailyText governanceContext tokenBudget in
  buildUnifiedSnapshot dailyText governanceContext tokenBudget
  = match nonEmpty g, nonEmpty d with
    | true, true => govHeader ++ g ++ blockSeparator ++ dailyHeader ++ d
    | true, false => govHeader ++ g
    | false, true => dailyHeader ++ d
    | false, false => []
    end.
Proof. apply buildUnifiedSnapshot_blocks. Qed.

(** X7.  A governance context that is already trimmed, has no carriage
    return and fits the governance budget enters the unified snapshot in
    full, under its header and ahead of everything else. *)
Theorem governance_enters_in_full (dailyText governanceContext : jsstring)
    (tokenBudget : Z) :
  nonEmpty governanceContext = true ->
  CR ∉ governanceContext ->
  trim governanceContext = governanceContext ->
  estimateTokens governanceContext <= GOVERNANCE_TOKEN_BUDGET ->
  (govHeader ++ governanceContext)
    `prefix_of` buildUnifiedSnapshot dailyText governanceContext tokenBudget.
Proof.
  intros Hne Hcr Htrim Hfit.
  assert (Hg : trimmedGov governanceContext = governanceContext).
  { unfold trimmedGov. rewrite Hne. cbv zeta.
    apply trimTextToTokenBudget_stable; [done..|]. lia. }
  unfold buildUnifiedSnapshot, unifiedParts. rewrite Hg, Hne.
  pose proof (trimmedDaily_tight dailyText governanceContext tokenBudget) as Hd.
  assert (Hgh : tight (govHeader ++ governanceContext)).
  { apply (tight_app_r _ _ HASH); [done..|].
    apply tight_of_trimmed; [by apply nonEmpty_true|done]. }
  set (d := trimmedDaily dailyText governanceContext tokenBudget) in *.
  destruct (nonEmpty d).
  - change (govHeader ++ governanceContext `prefix_of`
      trim ((govHeader ++ governanceContext) ++ blockSeparator ++ dailyHeader ++ d)).
    rewrite trim_fixed; [by eexists|].
    apply tight_app; [done|].
    apply (tight_app_r _ _ HASH); [done..|]. by apply Hd.
  - change (govHeader ++ governanceContext `prefix_of`
      trim (govHeader ++ governanceContext)).
    by rewrite trim_fixed.
Qed.

(** ** What the extractors return *)

Lemma matchLinkAt_exact s m :
  matchLinkAt s = Some m -> isWikilinkToken m /\ exists rest, s = m ++ rest.
Proof.
  unfold matchLinkAt. destruct s as [|a [|b s2]]; [done..|].
  destruct ((a =? LBRACKET)%N && (b =? LBRACKET)%N) eqn:E; [|done].
  apply andb_true_iff in E as [->%N.eqb_eq ->%N.eqb_eq].
  destruct (spanWhile notRBracket s2) as [body rest] eqn:Es.
  apply spanWhile_spec in Es as [-> Hall].
  destruct body as [|x body]; [done|]. destruct rest as [|c [|d rest]]; [done..|].
  destruct ((c =? RBRACKET)%N && (d =? RBRACKET)%N) eqn:E2; [|done].
  apply andb_true_iff in E2 as [->%N.eqb_eq ->%N.eqb_eq].
  intros [= <-]. split.
  - exists (x :: body). split; [done|]. split; [|done].
    intros Hin. rewrite Forall_forall in Hall. by apply Hall in Hin.
  - exists rest. simpl. by rewrite <- app_assoc.
Qed.

Lemma matchWikilinkAt_exact s m :
  matchWikilinkAt s = Some m ->
  (exists t, isWikilinkToken t /\ (m = t \/ m = BANG :: t))
  /\ exists rest, s = m ++ rest.
Proof.
  unfold matchWikilinkAt. destruct s as [|c s']; [done|].
  destruct (c =? BANG)%N eqn:E.
  - apply N.eqb_eq in E as ->.
    destruct (matchLinkAt s') as [t|] eqn:Et; [|done]. intros [= <-].
    destruct (matchLinkAt_exact _ _ Et) as (Htok & rest & ->).
    split; [exists t; split; [done|by right] | by exists rest].
  - intros Hm. destruct (matchLinkAt_exact _ _ Hm) as (Htok & rest & Hs).
    split; [exists m; split; [done|by left] | by exists rest].
Qed.

Lemma scanWikilinks_sound s : forall skip m,
  m ∈ scanWikilinks skip s ->
  (exists t, isWikilinkToken t /\ (m = t \/ m = BANG :: t)) /\ occursIn m s.
Proof.
  induction s as [|c s IH]; intros skip m Hin; [by apply elem_of_nil in Hin|].
  rewrite scanWikilinks_cons in Hin.
  assert (Hrec : forall k, m ∈ scanWikilinks k s ->
            (exists t, isWikilinkToken t /\ (m = t \/ m = BANG :: t))
            /\ occursIn m (c :: s)).
  { intros k Hk. destruct (IH k m Hk) as [Ht (b & a & ->)].
    split; [done|]. by exists (c :: b), a. }
  destruct skip as [|k]; [|by apply (Hrec k)].
  destruct (matchWikilinkAt (c :: s)) as [tok|] eqn:Em; [|by apply (Hrec O)].
  apply elem_of_cons in Hin as [->|Hin]; [|by eapply Hrec].
  destruct (matchWikilinkAt_exact _ _ Em) as (Ht & rest & Hs).
  split; [done|]. by exists [], rest.
Qed.

Lemma matchHashLabel_exact s m :
  matchHashLabel s = Some m -> isTagToken m /\ exists rest, s = m ++ rest.
Proof.
  unfold matchHashLabel. destruct s as [|c s]; [done|].
  destruct (c =? HASH)%N eqn:E; [|done]. apply N.eqb_eq in E as ->.
  destruct (spanWhile isTagChar s) as [run rest] eqn:Es.
  apply spanWhile_spec in Es as [-> Hrun].
  destruct run as [|x run]; [done|]. intros [= <-].
  split; [by exists (x :: run) | by exists rest].
Qed.

Lemma lineTerminator_is_space c : isLineTerminator c = true -> isWhiteSpace c = true.
Proof.
  unfold isLineTerminator, isWhiteSpace. intros H.
  repeat (apply orb_true_iff in H as [H|H]); apply N.eqb_eq in H as ->; done.
Qed.

Lemma trim_after_space w t : isWhiteSpace w = true -> trim (w :: t) = trim t.
Proof. intros Hw. unfold trim. simpl. by rewrite Hw. Qed.

Lemma last_None_nil {A} (l : list A) : last l = None -> l = [].
Proof.
  destruct l as [|x l] using rev_ind; [done|]. by rewrite last_snoc.
Qed.

Lemma scanTags_sound s : forall pre skip m,
  m ∈ scanTags skip (last pre) s -> tagOccursIn (trim m) (pre ++ s).
Proof.
  induction s as [|c s IH]; intros pre skip m Hin; [by apply elem_of_nil in Hin|].
  rewrite scanTags_cons in Hin.
  assert (Hrec : forall k, m ∈ scanTags k (Some c) s ->
            tagOccursIn (trim m) (pre ++ c :: s)).
  { intros k Hk. pose proof (IH (pre ++ [c]) k m) as Hc.
    rewrite last_snoc, <- app_assoc in Hc. by apply Hc. }
  destruct skip as [|k]; [|by apply (Hrec k)].
  destruct (matchTagAt _ (c :: s)) as [tok|] eqn:Em; [|by apply (Hrec O)].
  apply elem_of_cons in Hin as [->|Hin]; [|by eapply Hrec].
  clear Hrec IH. unfold matchTagAt in Em.
  destruct (if match last pre with
               | Some p => isLineTerminator p
               | None => true
               end then matchHashLabel (c :: s) else None) as [t|] eqn:E1.
  - injection Em as <-.
    destruct (last pre) as [p|] eqn:Ep.
    + destruct (isLineTerminator p) eqn:Et; [|done].
      destruct (matchHashLabel_exact _ _ E1) as (Htok & rest & ->).
      rewrite (trim_fixed t) by (by apply tagToken_tight).
      split; [done|]. exists pre, rest. split; [done|]. right. exists p.
      split; [done|]. by apply lineTerminator_is_space.
    + destruct (matchHashLabel_exact _ _ E1) as (Htok & rest & ->).
      rewrite (trim_fixed t) by (by apply tagToken_tight).
      split; [done|]. exists pre, rest. split; [done|]. left.
      by apply last_None_nil.
  - destruct (isWhiteSpace c) eqn:Ec; [|done].
    destruct (matchHashLabel s) as [t|] eqn:E2; [|done]. injection Em as <-.
    destruct (matchHashLabel_exact _ _ E2) as (Htok & rest & ->).
    rewrite (trim_after_space c t Ec).
    rewrite (trim_fixed t) by (by apply tagToken_tight).
    split; [done|]. exists (pre ++ [c]), rest.
    split; [by rewrite <- app_assoc|]. right. exists c.
    split; [apply last_snoc|done].
Qed.

(** X8.  [extractWikilinks] returns, without repetition, only pieces of the
    text that are a cross-reference token [[[...]]], possibly behind an
    exclamation mark, and every such token of the text lies within one of
    the pieces returned. *)
Theorem wikilinks_are_extracted_exactly (text : jsstring) :
  NoDup (extractWikilinks text)
  /\ (forall m, m ∈ extractWikilinks text ->
        occursIn m text
        /\ exists t, isWikilinkToken t /\ (m = t \/ m = BANG :: t))
  /\ (forall t, isWikilinkToken t -> occursIn t text ->
        exists m, m ∈ extractWikilinks text /\ occursIn t m).
Proof.
  unfold extractWikilinks. split; [apply uniqueFrom_NoDup|]. split.
  - intros m Hm. apply (proj1 (unique_elem _ _)) in Hm.
    destruct (scanWikilinks_sound _ _ _ Hm) as [Ht Hocc]. by split.
  - intros t (body & Hb1 & Hb2 & ->) (before & after & ->).
    destruct (scanWikilinks_complete body after Hb1 Hb2 before 0%nat)
      as (m & Hm & Hocc); [lia|].
    exists m. split; [by apply unique_elem|done].
Qed.

(** X9.  [extractTags] returns, without repetition, only label tokens
    [#label] that stand in the text at its start or after a white space,
    and every such token of the text lies within one of the labels
    returned. *)
Theorem tags_are_extracted_exactly (text : jsstring) :
  NoDup (extractTags text)
  /\ (forall t, t ∈ extractTags text -> tagOccursIn t text)
  /\ (forall t, tagOccursIn t text ->
        exists t', t' ∈ extractTags text /\ occursIn t t').
Proof.
  unfold extractTags. split; [apply uniqueFrom_NoDup|]. split.
  - intros t Ht. apply (proj1 (unique_elem _ _)) in Ht.
    change (t ∈ trim <$> scanTags 0 None text) in Ht.
    apply list_elem_of_fmap in Ht as (m & -> & Hm).
    by apply (scanTags_sound text [] 0%nat).
  - intros t Ht. destruct (scanTags_complete t text Ht) as (m & Hm & Hocc).
    exists (trim m). split; [|done]. apply unique_elem.
    change (trim m ∈ trim <$> scanTags 0 None text).
    apply list_elem_of_fmap. by exists m.
Qed.

Lemma includes_cons p c s :
  includes p (c :: s) = startsWith p (c :: s) || includes p s.
Proof. reflexivity. Qed.

Lemma countMarkers_includes s :
  countMarkers s <> 0%nat -> includes [PERCENT; PERCENT] s = true.
Proof.
  induction s as [|a s IH]; [done|]. destruct s as [|b s]; [done|].
  rewrite includes_cons. simpl countMarkers.
  destruct ((a =? PERCENT)%N && (b =? PERCENT)%N) eqn:E.
  - intros _. apply andb_true_iff in E as [->%N.eqb_eq ->%N.eqb_eq]. done.
  - intros Hc. rewrite (IH Hc). apply orb_true_r.
Qed.

Lemma commentLoop_sublist lines : forall inBlock,
  commentLoop inBlock lines `sublist_of` lines.
Proof.
  induction lines as [|line rest IH]; intros inBlock; simpl; [done|].
  destruct (includes _ line); [by apply sublist_skip|].
  destruct inBlock; [by apply sublist_skip | by apply sublist_cons].
Qed.

Lemma commentLoop_keeps_marked lines line : forall inBlock,
  line ∈ lines -> includes [PERCENT; PERCENT] line = true ->
  line ∈ commentLoop inBlock lines.
Proof.
  induction lines as [|l rest IH]; intros inBlock Hin Hm;
    [by apply elem_of_nil in Hin|].
  simpl commentLoop. apply elem_of_cons in Hin as [<-|Hin].
  - rewrite Hm. apply elem_of_cons. by left.
  - destruct (includes _ l); [apply elem_of_cons; right; by apply IH|].
    destruct inBlock; [apply elem_of_cons; right|]; by apply IH.
Qed.

Lemma commentLoop_unmarked lines :
  Forall (fun l => includes [PERCENT; PERCENT] l = false) lines ->
  commentLoop false lines = [] /\ commentLoop true lines = lines.
Proof.
  induction 1 as [|l rest Hl _ [IH1 IH2]]; [done|]. simpl.
  by rewrite Hl, IH1, IH2.
Qed.

Lemma commentLoop_app_unmarked pre rest inBlock :
  Forall (fun l => includes [PERCENT; PERCENT] l = false) pre ->
  commentLoop inBlock (pre ++ rest)
  = (if inBlock then pre else []) ++ commentLoop inBlock rest.
Proof.
  induction 1 as [|l pre Hl _ IH]; [by destruct inBlock|].
  simpl. rewrite Hl, IH. by destruct inBlock.
Qed.

Lemma commentLoop_toggle line rest inBlock :
  Nat.odd (countMarkers line) = true ->
  commentLoop inBlock (line :: rest) = line :: commentLoop (negb inBlock) rest.
Proof.
  intros Hodd. simpl. rewrite countMarkers_includes, Hodd; [done|].
  intros Hz. by rewrite Hz in Hodd.
Qed.

Lemma isTaskLine_dash line : isTaskLine line = true -> DASH ∈ line.
Proof.
  unfold isTaskLine. intros H.
  destruct (trimStart line) as [|d t] eqn:E; [done|].
  destruct t as [|sp [|lb [|m [|rb [|w t]]]]]; try done.
  apply andb_true_iff in H as [H _]. apply andb_true_iff in H as [H _].
  apply andb_true_iff in H as [H _]. apply andb_true_iff in H as [H _].
  apply andb_true_iff in H as [H _]. apply N.eqb_eq in H as ->.
  destruct (trimStart_suffix line) as [before Hb]. rewrite Hb, E.
  apply elem_of_app. right. apply elem_of_cons. by left.
Qed.

Lemma marked_has_percent line :
  includes [PERCENT; PERCENT] line = true -> PERCENT ∈ line.
Proof.
  intros H. apply includes_spec in H as (b & a & ->).
  apply elem_of_app. right. apply elem_of_cons. by left.
Qed.

Lemma split_lines_empty_text text line :
  line ∈ split_lines text -> line <> [] -> nonEmpty text = true.
Proof.
  destruct text; [|done]. simpl. intros Hin Hne.
  apply elem_of_cons in Hin as [->|Hin]; [done|by apply elem_of_nil in Hin].
Qed.

(** X10.  [extractCommentLines] keeps lines of the note in their order:
    every line that holds the marker [%%], and the lines enclosed between a
    line that opens a block comment and the line that closes it; lines
    outside are left out. *)
Theorem comment_lines_marked_or_enclosed (lines : list jsstring) :
  extractCommentLines lines `sublist_of` lines
  /\ (forall line, line ∈ lines -> includes [PERCENT; PERCENT] line = true ->
        line ∈ extractCommentLines lines)
  /\ (forall before opening inside closing rest,
        lines = before ++ opening :: inside ++ closing :: rest ->
        Forall (fun l => includes [PERCENT; PERCENT] l = false) before ->
        Forall (fun l => includes [PERCENT; PERCENT] l = false) inside ->
        Nat.odd (countMarkers opening) = true ->
        Nat.odd (countMarkers closing) = true ->
        extractCommentLines lines
        = opening :: inside ++ closing :: extractCommentLines rest).
Proof.
  unfold extractCommentLines. split; [apply commentLoop_sublist|]. split.
  - intros line. apply commentLoop_keeps_marked.
  - intros before opening inside closing rest -> Hb Hi Ho Hc.
    rewrite (commentLoop_app_unmarked before _ false Hb).
    rewrite (commentLoop_toggle opening _ false Ho).
    rewrite (commentLoop_app_unmarked inside _ (negb false) Hi).
    by rewrite (commentLoop_toggle closing _ (negb false) Hc).
Qed.

(** X11.  When the note exceeds the limit and the assembled sections fit,
    each task line and each line holding a comment marker is in the
    snapshot, without the white space around it. *)
Theorem task_and_comment_lines_survive
    (raw : jsstring) (maxChars : Z) (line : jsstring) :
  let text := trim (normalizeNewlines raw) in
  maxChars < strlen text ->
  strlen (assembleParts (snapshotParts text maxChars)) <= maxChars ->
  line ∈ split_lines text ->
  isTaskLine line = true \/ includes [PERCENT; PERCENT] line = true ->
  occursIn (trim line) (buildObsidianSafeSnapshot raw maxChars).
Proof.
  intros text Hover Hfit Hline Hkind.
  assert (Hc : exists c, c ∈ line /\ isWhiteSpace c = false).
  { destruct Hkind as [Ht|Hm];
      [exists DASH; split; [by apply isTaskLine_dash|done]
      |exists PERCENT; split; [by apply marked_has_percent|done]]. }
  destruct Hc as (c & Hc & Hw).
  assert (Hne : nonEmpty text = true).
  { apply (split_lines_empty_text text line Hline). intros ->.
    by apply elem_of_nil in Hc. }
  assert (Htight : tight (trim line)) by (by apply trim_tight, (trim_nonempty _ c)).
  rewrite (snapshot_when_sections_fit raw maxChars Hne Hover Hfit). fold text.
  destruct Hkind as [Ht|Hm].
  - apply (part_survives _ (join NL (extractTaskLines (split_lines text))));
      [| |done].
    + unfold snapshotParts. apply elem_of_app. right. apply elem_of_app. left.
      apply (section_join _ _ _ line). by apply list_elem_of_filter.
    + eapply occursIn_trans; [apply occursIn_trim_self|].
      apply occursIn_join. by apply list_elem_of_filter.
  - apply (part_survives _ (join NL (extractCommentLines (split_lines text))));
      [| |done].
    + unfold snapshotParts. do 4 (apply elem_of_app; right).
      apply (section_join _ _ _ line). by apply commentLoop_keeps_marked.
    + eapply occursIn_trans; [apply occursIn_trim_self|].
      apply occursIn_join. by apply commentLoop_keeps_marked.
Qed.

(** ** The tail excerpt *)

Lemma pickLoop_exhausted cands : forall used maxChars,
  maxChars <= used -> pickLoop cands used maxChars = [].
Proof.
  induction cands as [|[i l] rest IH]; intros used m Hle; [done|]. simpl.
  pose proof (strlen_nonneg l).
  replace (used + (strlen l + 1) >? m) with true
    by (symmetry; rewrite Z.gtb_ltb; apply Z.ltb_lt; lia).
  by apply IH.
Qed.

Lemma fold_pushHeading_unique headings : forall result seen,
  fold_left pushHeading headings (result, seen)
  = (result ++ uniqueFrom seen headings,
     reverse (uniqueFrom seen headings) ++ seen).
Proof.
  induction headings as [|h rest IH]; intros result seen.
  - simpl. by rewrite app_nil_r.
  - assert (Hstep : pushHeading (result, seen) h
                    = if seenIn h seen then (result, seen)
                      else (result ++ [h], h :: seen))
      by (unfold pushHeading; by destruct (seenIn h seen)).
    cbn [fold_left uniqueFrom]. rewrite Hstep.
    destruct (seenIn h seen); [apply IH|].
    rewrite IH, reverse_cons, <- !app_assoc. done.
Qed.

Lemma fold_pushLine_extends picked : forall acc,
  acc.1 `prefix_of` (fold_left pushLine picked acc).1.
Proof.
  induction picked as [|l rest IH]; intros [result seen]; [done|].
  simpl fold_left. etransitivity; [|apply IH].
  unfold pushLine. destruct (_ || _); simpl; [by apply prefix_app_r|done].
Qed.

Lemma pushedOnce_snoc result seen x :
  pushedOnce (result, seen) -> (nonEmpty x = true -> x ∉ seen) ->
  pushedOnce (result ++ [x], x :: seen).
Proof.
  intros [Hsub Hnd] Hx. split; simpl in *.
  - intros y Hy. apply elem_of_app in Hy as [Hy|Hy]; apply elem_of_cons.
    + right. by apply Hsub.
    + left. by apply list_elem_of_singleton in Hy.
  - rewrite filter_app. destruct (nonEmpty x) eqn:Ex.
    + rewrite filter_cons_True by done. rewrite filter_nil.
      apply NoDup_app. split; [done|]. split; [|apply NoDup_singleton].
      intros y Hy Hy'. apply list_elem_of_singleton in Hy' as ->.
      apply list_elem_of_filter in Hy as [_ Hy]. by apply (Hx eq_refl), Hsub.
    + rewrite filter_cons_False by (by rewrite Ex). rewrite filter_nil.
      by rewrite app_nil_r.
Qed.

Lemma fold_pushHeading_once headings : forall acc,
  pushedOnce acc -> pushedOnce (fold_left pushHeading headings acc).
Proof.
  induction headings as [|h rest IH]; intros [result seen] Hacc; [done|].
  simpl fold_left. apply IH. unfold pushHeading, seenIn.
  destruct (bool_decide (h ∈ seen)) eqn:E; simpl negb; cbv iota; [done|].
  apply pushedOnce_snoc; [done|]. intros _.
  by apply bool_decide_eq_false in E.
Qed.

Lemma fold_pushLine_once picked : forall acc,
  pushedOnce acc -> pushedOnce (fold_left pushLine picked acc).
Proof.
  induction picked as [|l rest IH]; intros [result seen] Hacc; [done|].
  simpl fold_left. apply IH. unfold pushLine, seenIn.
  destruct (nonEmpty l) eqn:El; simpl negb; simpl orb.
  - destruct (bool_decide (l ∈ seen)) eqn:E; simpl negb; cbv iota; [done|].
    apply pushedOnce_snoc; [done|]. intros _.
    by apply bool_decide_eq_false in E.
  - apply pushedOnce_snoc; [done|]. by rewrite El.
Qed.

(** X12.  The tail excerpt holds no non-empty line twice: a line equal to
    one already taken is dropped.  With a limit of zero or less the excerpt
    is empty. *)
Theorem tail_excerpt_has_no_repeats (lines : list jsstring) (maxChars : Z) :
  NoDup (filter (fun l => nonEmpty l = true) (clipFromTailByLine lines maxChars))
  /\ (maxChars <= 0 -> clipFromTailByLine lines maxChars = []).
Proof.
  split.
  - unfold clipFromTailByLine.
    destruct (sortAscending (pickFromTail lines maxChars)) as [|startIdx rest];
      [rewrite filter_nil; constructor|].
    apply fold_pushLine_once, fold_pushHeading_once.
    split; simpl; [intros x Hx; by apply elem_of_nil in Hx|].
    rewrite filter_nil. constructor.
  - intros Hle. unfold clipFromTailByLine, pickFromTail.
    by rewrite pickLoop_exhausted.
Qed.

(** X13.  The tail excerpt opens with the headings of the note that stand
    at or above its first line, each one once and in their order. *)
Theorem tail_excerpt_opens_with_headings
    (lines : list jsstring) (maxChars : Z) (startIdx : nat) (later : list nat) :
  sortAscending (pickFromTail lines maxChars) = startIdx :: later ->
  unique (findHeadingContext lines startIdx)
    `prefix_of` clipFromTailByLine lines maxChars.
Proof.
  intros Hpicked. unfold clipFromTailByLine. rewrite Hpicked.
  rewrite fold_pushHeading_unique. simpl app.
  apply (fold_pushLine_extends _ (_, _)).
Qed.

(** ** The handler *)

Lemma split_lines_Forall (P : N -> Prop) s :
  Forall P s -> Forall (Forall P) (split_lines s).
Proof.
  induction 1 as [|c s Hc _ IH]; [by repeat constructor|]. simpl.
  destruct (c =? LF)%N; [by constructor|].
  destruct (split_lines s) as [|l ls]; [by repeat constructor|].
  apply Forall_cons in IH as [Hl Hls]. constructor; [by constructor|done].
Qed.

Lemma join_Forall (P : N -> Prop) sep parts :
  Forall P sep -> Forall (Forall P) parts -> Forall P (join sep parts).
Proof.
  intros Hsep. induction 1 as [|p ps Hp Hps IH]; [constructor|].
  destruct ps as [|q ps]; [done|].
  change (join sep (p :: q :: ps)) with (p ++ sep ++ join sep (q :: ps)).
  apply Forall_app. split; [done|]. apply Forall_app. by split.
Qed.

Lemma deltaTextOf_blank dayState normalizedOutput :
  Forall (fun c => isWhiteSpace c = true) normalizedOutput ->
  deltaTextOf dayState normalizedOutput = [].
Proof.
  intros Hblank. unfold deltaTextOf. destruct dayState as [entry|]; [|done].
  destruct (lastLineCount entry) as [n|]; [|done].
  destruct (_ >? _); [|done]. apply trim_blank, join_Forall.
  - by repeat constructor.
  - unfold sliceFrom. apply Forall_drop. by apply split_lines_Forall.
Qed.

Lemma rebuildSnapshot_blank dayState normalizedOutput governanceContext :
  Forall (fun c => isWhiteSpace c = true) normalizedOutput ->
  rebuildSnapshot dayState normalizedOutput governanceContext
  = if nonEmpty (trimmedGov governanceContext)
    then govHeader ++ trimmedGov governanceContext else [].
Proof.
  intros Hblank. unfold rebuildSnapshot. cbv zeta.
  rewrite (deltaTextOf_blank _ _ Hblank).
  rewrite (buildObsidianSafeSnapshot_blank _ _ Hblank).
  rewrite buildTokenAwareSnapshot_without_delta.
  rewrite (trimTextToTokenBudget_blank [] DAILY_TOKEN_BUDGET) by constructor.
  rewrite buildUnifiedSnapshot_blocks.
  assert (trimmedDaily [] governanceContext MAX_SNAPSHOT_TOKENS = []) as ->
    by reflexivity.
  by destruct (nonEmpty (trimmedGov governanceContext)).
Qed.

Lemma strlen_le_tokens s : strlen s <= 4 * estimateTokens s.
Proof.
  unfold estimateTokens, ceilDiv4.
  pose proof (Z.div_mod (strlen s + 3) 4 ltac:(lia)).
  pose proof (Z.mod_pos_bound (strlen s + 3) 4 ltac:(lia)). lia.
Qed.

Lemma governanceContextOf_ext inv inv' :
  governanceFiles inv' = governanceFiles inv ->
  governanceContextOf inv' = governanceContextOf inv.
Proof. unfold governanceContextOf. by intros ->. Qed.

Lemma dailyArtifact_ext inv inv' snap :
  governanceFiles inv' = governanceFiles inv ->
  dailyArtifact inv' snap = dailyArtifact inv snap.
Proof.
  intros Hg. unfold dailyArtifact. by rewrite (governanceContextOf_ext _ _ Hg).
Qed.


(** X15.  A snapshot built by a run that found no usable cache entry is
    at most [MAX_SNAPSHOT_TOKENS + 11] tokens, that is 12044 code units,
    long. *)
Theorem rebuilt_snapshot_is_bounded (inv : Invocation) (state : CacheState) :
  isCacheHit (state !! today inv) (combinedHashOf inv) = false ->
  estimateTokens (safeSnapshot (handlerCore inv state)) <= MAX_SNAPSHOT_TOKENS + 11
  /\ strlen (safeSnapshot (handlerCore inv state)) <= 12044.
Proof.
  intros Hmiss. rewrite (handlerCore_rebuild inv state Hmiss). simpl.
  unfold rebuildSnapshot. cbv zeta.
  match goal with |- estimateTokens ?s <= _ /\ _ =>
    pose proof (strlen_le_tokens s) as Hlen;
    assert (Hfit : estimateTokens s <= MAX_SNAPSHOT_TOKENS + 11)
      by apply unified_snapshot_overhead;
    set (snap := s) in *
  end.
  split; [done|]. change (MAX_SNAPSHOT_TOKENS + 11) with 3011 in Hfit. lia.
Qed.

(** X16.  On a day whose note is empty or white space only, a run that
    found no usable cache entry returns the governance block alone, and
    with no governance either the notice that nothing was logged. *)
Theorem blank_note_gives_governance_only (inv : Invocation) (state : CacheState) :
  Forall (fun c => isWhiteSpace c = true) (obsidianOutput inv) ->
  isCacheHit (state !! today inv) (combinedHashOf inv) = false ->
  safeSnapshot (handlerCore inv state)
  = (if nonEmpty (trimmedGov (governanceContextOf inv))
     then govHeader ++ trimmedGov (governanceContextOf inv) else [])
  /\ (governanceContextOf inv = [] ->
      dailyArtifact inv (safeSnapshot (handlerCore inv state))
      = lit "# Obsidian Context Snapshot" ++ NL ++ NL
        ++ lit "No log entries found for today yet. Use the obsidian-life-memory skill to log events."
        ++ NL ++ NL).
Proof.
  intros Hblank Hmiss. rewrite (handlerCore_rebuild inv state Hmiss). simpl.
  rewrite rebuildSnapshot_blank by (by apply normalizeNewlines_blank).
  split; [done|]. intros Hgov. unfold dailyArtifact. rewrite Hgov. reflexivity.
Qed.

(** X17.  The delta after text was appended to a note seen before: when
    the text follows a line break added after the old note, the delta is the
    appended text, trimmed; when the old note already ended with the line
    break, the first appended line is not part of the delta. *)
Theorem delta_after_append (entry : CacheEntry) (old extra : jsstring) :
  (lastLineCount entry = Some (lineCountOf old) ->
   deltaTextOf (Some entry) (old ++ NL ++ extra) = trim extra)
  /\ (lastLineCount entry = Some (lineCountOf (old ++ NL)) ->
      deltaTextOf (Some entry) (old ++ NL ++ extra)
      = trim (join NL (tail (split_lines extra)))).
Proof.
  assert (Hnew : lineCountOf (old ++ NL ++ extra)
                 = Z.of_nat (length (split_lines old) + length (split_lines extra))).
  { unfold lineCountOf. rewrite split_lines_app, length_app.
    by destruct old. }
  pose proof (split_lines_nonempty extra) as Hextra.
  pose proof (split_lines_nonempty old) as Hold.
  split; intros Hcount; unfold deltaTextOf; rewrite Hcount, Hnew.
  - destruct old as [|c old'] eqn:Eold.
    + change (lineCountOf []) with 0.
      replace (Z.of_nat (length (split_lines []) + length (split_lines extra)) >? 0)
        with true by (symmetry; rewrite Z.gtb_ltb; apply Z.ltb_lt; simpl; lia).
      change (sliceFrom 0 ?l) with (sliceFrom (Z.of_nat 0) l).
      rewrite sliceFrom_drop, drop_0, join_split_lines.
      by apply trim_after_space.
    + rewrite <- Eold in *. assert (lineCountOf old
                = Z.of_nat (length (split_lines old))) as ->
        by (by rewrite Eold).
      replace (_ >? _) with true.
      2:{ symmetry. rewrite Z.gtb_ltb. apply Z.ltb_lt.
          destruct (split_lines extra); [done|]. simpl length. lia. }
      rewrite sliceFrom_drop, split_lines_app, drop_app_length.
      by rewrite join_split_lines.
  - assert (Hlines : split_lines (old ++ NL) = split_lines old ++ [[]]).
    { rewrite <- (app_nil_r (old ++ NL)), <- app_assoc.
      by rewrite split_lines_app. }
    assert (lineCountOf (old ++ NL)
            = Z.of_nat (length (split_lines old ++ [[]]))) as ->.
    { unfold lineCountOf. rewrite Hlines. by destruct old. }
    rewrite length_app. simpl length.
    destruct (split_lines extra) as [|first later] eqn:Ee; [done|].
    simpl tail. simpl length.
    destruct later as [|second later].
    + replace (_ >? _) with false; [done|].
      symmetry. rewrite Z.gtb_ltb. apply Z.ltb_ge. simpl length. lia.
    + replace (_ >? _) with true.
      2:{ symmetry. rewrite Z.gtb_ltb. apply Z.ltb_lt. simpl length. lia. }
      replace (Z.of_nat (length (split_lines old) + 1))
        with (Z.of_nat (length (split_lines old ++ [first])))
        by (rewrite length_app; simpl; lia).
      rewrite sliceFrom_drop, split_lines_app, Ee.
      change (first :: second :: later) with ([first] ++ second :: later).
      by rewrite app_assoc, drop_app_length.
Qed.

(** X18.  Running the hook twice on an unchanged day leaves the files as
    one run does, provided that the written state file reads back as the
    mapping written and that the snapshot is not empty: the second run
    writes nothing and injects the same file. *)
Theorem second_run_changes_nothing
    (inv inv' : Invocation) (stateFile : option jsstring) :
  today inv' = today inv ->
  obsidianOutput inv' = obsidianOutput inv ->
  governanceFiles inv' = governanceFiles inv ->
  (forall st, written (handlerCore inv (readBootstrapState stateFile)) = Some st ->
     JSON_parse (writeBootstrapState st) = Some (JObject st)) ->
  safeSnapshot (handlerCore inv (readBootstrapState stateFile)) <> [] ->
  handler inv' (stateFileAfter (handler inv stateFile)) = handler inv stateFile.
Proof.
  intros Htoday Hout Hgov Hparse Hsnap.
  pose proof (combinedHashOf_ext inv inv' Hout Hgov) as Hhash.
  set (state := readBootstrapState stateFile) in *.
  unfold handler. fold state.
  destruct (isCacheHit (state !! today inv) (combinedHashOf inv)) eqn:Ehit.
  - apply isCacheHit_iff in Ehit as (entry & Hday & Hh & Hs).
    rewrite (handlerCore_hit inv state entry Hday Hh Hs). simpl. fold state.
    rewrite (handlerCore_hit inv' state entry); simpl;
      [|by rewrite Htoday|by rewrite Hhash|done].
    by rewrite (dailyArtifact_ext inv inv').
  - rewrite (handlerCore_rebuild inv state Ehit) in Hparse, Hsnap |- *.
    simpl in Hparse, Hsnap |- *.
    set (entry := rebuiltEntry inv (state !! today inv)) in *.
    rewrite (Hparse _ eq_refl). simpl.
    rewrite (handlerCore_hit inv' _ entry); simpl;
      [|rewrite Htoday; apply lookup_insert_eq|by rewrite Hhash|done].
    by rewrite (dailyArtifact_ext inv inv').
Qed.

(** ** The governance context *)

Lemma scanLine_idle st line :
  hasCriticalKeyword (toLowerCase line) = false ->
  inCriticalSection st = false ->
  inCriticalSection (scanLine st line) = false
  /\ criticalSections (scanLine st line) = criticalSections st.
Proof.
  intros Hkw Hidle. unfold scanLine. cbv zeta. rewrite Hkw.
  destruct (headingMatch line) as [title|].
  - simpl. unfold flushSection. by rewrite Hidle.
  - rewrite andb_false_r. simpl. by rewrite Hidle.
Qed.

Lemma fold_scanLine_idle lines : forall st,
  Forall (fun line => hasCriticalKeyword (toLowerCase line) = false) lines ->
  inCriticalSection st = false ->
  flushSection (fold_left scanLine lines st) = criticalSections st.
Proof.
  induction lines as [|line rest IH]; intros st Hkw Hidle.
  - simpl. unfold flushSection. by rewrite Hidle.
  - apply Forall_cons in Hkw as [Hline Hrest].
    destruct (scanLine_idle st line Hline Hidle) as [Hidle' Hsame].
    simpl fold_left. by rewrite (IH _ Hrest Hidle'), Hsame.
Qed.

Lemma join_tight sep parts :
  parts <> [] -> Forall tight parts -> tight (join sep parts).
Proof.
  intros Hne Hall. induction Hall as [|p ps Hp Hps IH]; [done|].
  destruct ps as [|q ps]; [done|].
  change (join sep (p :: q :: ps)) with (p ++ sep ++ join sep (q :: ps)).
  apply tight_app; [done|]. by apply IH.
Qed.

Lemma extractCriticalConstraints_trimmed text filename :
  trim (extractCriticalConstraints text filename)
  = extractCriticalConstraints text filename.
Proof.
  unfold extractCriticalConstraints. destruct (negb (nonEmpty text)); [done|].
  apply trim_idempotent.
Qed.

Lemma governanceSection_cases filename content :
  governanceSection (filename, content)
  = if nonEmpty (extractCriticalConstraints content filename)
    then [lit "## " ++ labelOf filename ++ NL
          ++ extractCriticalConstraints content filename]
    else [].
Proof.
  unfold governanceSection. destruct content as [|c content]; [done|]. done.
Qed.

Lemma governanceSection_tight file : Forall tight (governanceSection file).
Proof.
  destruct file as [filename content]. rewrite governanceSection_cases.
  destruct (nonEmpty (extractCriticalConstraints content filename)) eqn:E;
    [|constructor].
  constructor; [|constructor].
  rewrite !app_assoc. apply (tight_app_r _ _ HASH); [reflexivity..|].
  apply tight_of_trimmed;
    [by apply nonEmpty_true|apply extractCriticalConstraints_trimmed].
Qed.

Lemma concat_Forall {A} (P : A -> Prop) (ls : list (list A)) :
  Forall (Forall P) ls -> Forall P (concat ls).
Proof.
  induction 1 as [|l ls Hl _ IH]; [constructor|]. simpl.
  apply Forall_app. by split.
Qed.

Lemma concat_elem {A} (x : A) l (ls : list (list A)) :
  x ∈ l -> l ∈ ls -> x ∈ concat ls.
Proof.
  intros Hx. induction ls as [|k ls IH]; intros Hl; [by apply elem_of_nil in Hl|].
  simpl. apply elem_of_app. apply elem_of_cons in Hl as [<-|Hl]; [by left|].
  right. by apply IH.
Qed.

(** X19.  The governance context has no white space around it; each file
    from which constraints were extracted is in it as a section under the
    heading of its label; and it is empty when no file gives constraints. *)
Theorem governance_context_sections (files : list (jsstring * jsstring)) :
  trim (buildGovernanceContext files) = buildGovernanceContext files
  /\ (forall filename content,
        (filename, content) ∈ files ->
        extractCriticalConstraints content filename <> [] ->
        occursIn
          (lit "## " ++ labelOf filename ++ NL
           ++ extractCriticalConstraints content filename)
          (buildGovernanceContext files))
  /\ (Forall (fun file => extractCriticalConstraints file.2 file.1 = []) files ->
      buildGovernanceContext files = []).
Proof.
  unfold buildGovernanceContext. split; [|split].
  - destruct (concat (map governanceSection files)) as [|p ps] eqn:E; [done|].
    rewrite <- E. apply trim_fixed, join_tight; [by rewrite E|].
    apply concat_Forall, Forall_forall. intros sections Hin.
    change (sections ∈ governanceSection <$> files) in Hin.
    apply list_elem_of_fmap in Hin as (file & -> & _).
    apply governanceSection_tight.
  - intros filename content Hin Hne. apply occursIn_join.
    apply (concat_elem _ (governanceSection (filename, content))).
    + rewrite governanceSection_cases.
      destruct (extractCriticalConstraints content filename); [done|].
      apply elem_of_cons. by left.
    + change (governanceSection (filename, content) ∈ governanceSection <$> files).
      apply list_elem_of_fmap. by exists (filename, content).
  - intros Hnone.
    assert (concat (map governanceSection files) = []) as ->; [|done].
    induction Hnone as [|[filename content] rest Hfile _ IH]; [done|].
    change (concat (map governanceSection ((filename, content) :: rest)))
      with (governanceSection (filename, content)
            ++ concat (map governanceSection rest)).
    rewrite IH, governanceSection_cases. simpl in Hfile. by rewrite Hfile.
Qed.

(** X20.  From a text in which no line holds a critical keyword and no
    line is a strong constraint, nothing is extracted. *)
Theorem nothing_extracted_without_keywords (text filename : jsstring) :
  Forall (fun line => hasCriticalKeyword (toLowerCase line) = false
                      /\ isStrongConstraint line = false) (split_lines text) ->
  extractCriticalConstraints text filename = [].
Proof.
  intros Hlines. unfold extractCriticalConstraints.
  destruct (negb (nonEmpty text)); [done|].
  unfold constraintParts, sectionsOf, strongConstraintsOf.
  rewrite fold_scanLine_idle;
    [|eapply Forall_impl; [exact Hlines|]; by intros line [? _] | done].
  rewrite filter_none;
    [done | eapply Forall_impl; [exact Hlines|]].
  intros line [_ Hs]. by rewrite Hs.
Qed.

(** ** The command line *)

Lemma valuesLoop_cons2 x y rest acc :
  valuesLoop (x :: y :: rest) acc
  = if isFlag x && nonEmpty y && negb (isFlag y)
    then valuesLoop rest (<[x := y]> acc)
    else valuesLoop (y :: rest) acc.
Proof. reflexivity. Qed.

Lemma valuesLoop_sound n : forall rest acc k v,
  (length rest <= n)%nat ->
  valuesLoop rest acc !! k = Some v ->
  acc !! k = Some v
  \/ (isFlag k = true /\ nonEmpty v = true /\ isFlag v = false
      /\ exists pre post, rest = pre ++ k :: v :: post).
Proof.
  induction n as [|n IH]; intros [|x [|y rest]] acc k v Hlen H;
    simpl in Hlen; try lia; try (by left).
  rewrite valuesLoop_cons2 in H.
  destruct (isFlag x && nonEmpty y && negb (isFlag y)) eqn:E.
  - apply IH in H; [|lia]. destruct H as [H|(Hk & Hv & Hv' & pre & post & ->)].
    + destruct (decide (k = x)) as [->|Hne].
      * rewrite lookup_insert_eq in H. injection H as ->. right.
        apply andb_true_iff in E as [E Ey']. apply andb_true_iff in E as [Ex Ey].
        apply negb_true_iff in Ey'. repeat split; try done. by exists [], rest.
      * rewrite lookup_insert_ne in H by done. by left.
    + right. repeat split; try done. by exists (x :: y :: pre), post.
  - apply IH in H; [|simpl; lia].
    destruct H as [H|(Hk & Hv & Hv' & pre & post & Heq)]; [by left|].
    right. repeat split; try done. exists (x :: pre), post. by rewrite Heq.
Qed.

Lemma valuesLoop_untouched n : forall rest acc k,
  (length rest <= n)%nat -> k ∉ rest -> valuesLoop rest acc !! k = acc !! k.
Proof.
  induction n as [|n IH]; intros [|x [|y rest]] acc k Hlen Hk;
    simpl in Hlen; try lia; try done.
  rewrite valuesLoop_cons2.
  apply not_elem_of_cons in Hk as [Hx Hk].
  destruct (isFlag x && nonEmpty y && negb (isFlag y)).
  - apply not_elem_of_cons in Hk as [_ Hk].
    rewrite IH by (done || lia). by apply lookup_insert_ne.
  - apply IH; [simpl; lia|done].
Qed.

Lemma valuesLoop_takes_here x y post acc :
  isFlag x = true -> nonEmpty y = true -> isFlag y = false -> x ∉ post ->
  valuesLoop (x :: y :: post) acc !! x = Some y.
Proof.
  intros Hx Hy Hy' Hpost. rewrite valuesLoop_cons2, Hx, Hy, Hy'. simpl.
  rewrite (valuesLoop_untouched (length post)) by done.
  apply lookup_insert_eq.
Qed.

Lemma valuesLoop_takes n : forall pre acc x y post,
  (length pre <= n)%nat ->
  isFlag x = true -> nonEmpty y = true -> isFlag y = false -> x ∉ post ->
  valuesLoop (pre ++ x :: y :: post) acc !! x = Some y.
Proof.
  induction n as [|n IH]; intros [|p [|q pre]] acc x y post Hlen Hx Hy Hy' Hpost;
    simpl in Hlen; try lia; try (by apply valuesLoop_takes_here).
  - change ([p] ++ x :: y :: post) with (p :: x :: y :: post).
    rewrite valuesLoop_cons2, Hx, andb_false_r.
    by apply valuesLoop_takes_here.
  - change ((p :: q :: pre) ++ x :: y :: post)
      with (p :: q :: (pre ++ x :: y :: post)).
    rewrite valuesLoop_cons2.
    destruct (isFlag p && nonEmpty q && negb (isFlag q)).
    + apply IH; [lia|done..].
    + apply (IH (q :: pre)); [simpl; lia|done..].
Qed.

(** X21.  [parseArgs]: the command is the first argument; the flags are
    the arguments after it that start with two dashes, each once; a value
    is recorded only for a flag, and is the non-empty argument, not a flag,
    that follows an occurrence of the flag; and a flag followed by such an
    argument has the value of its last occurrence. *)
Theorem command_line_is_parsed (first : jsstring) (rest : list jsstring) :
  cmd (parseArgs (first :: rest)) = first
  /\ NoDup (flags (parseArgs (first :: rest)))
  /\ (forall x, x ∈ flags (parseArgs (first :: rest))
                <-> x ∈ rest /\ isFlag x = true)
  /\ (forall k v,
        values (parseArgs (first :: rest)) !! k = Some v ->
        k ∈ flags (parseArgs (first :: rest))
        /\ nonEmpty v = true /\ isFlag v = false
        /\ exists pre post, rest = pre ++ k :: v :: post)
  /\ (forall pre x y post,
        rest = pre ++ x :: y :: post ->
        isFlag x = true -> nonEmpty y = true -> isFlag y = false ->
        x ∉ post ->
        values (parseArgs (first :: rest)) !! x = Some y).
Proof.
  simpl. split; [done|]. split; [apply uniqueFrom_NoDup|].
  assert (Hflags : forall x, x ∈ unique (filter (fun x => isFlag x = true) rest)
                             <-> x ∈ rest /\ isFlag x = true).
  { intros x. rewrite unique_elem, list_elem_of_filter.
    split; intros [? ?]; by split. }
  split; [exact Hflags|]. split.
  - intros k v Hkv.
    destruct (valuesLoop_sound (length rest) rest ∅ k v (le_n _) Hkv)
      as [Hempty|(Hk & Hv & Hv' & pre & post & Hrest)];
      [by rewrite lookup_empty in Hempty|].
    split; [|split; [done|split; [done|by exists pre, post]]].
    apply Hflags. split; [|done]. rewrite Hrest.
    apply elem_of_app. right. apply elem_of_cons. by left.
  - intros pre x y post -> Hx Hy Hy' Hpost.
    by apply (valuesLoop_takes (length pre)).
Qed.

(** ** The date key *)

Lemma padStart2_small n : (n < 100)%N -> padStart2 (toDecimal n) = twoDigits n.
Proof.
  intros Hn.
  assert (H : forallb (fun i => bool_decide (padStart2 (toDecimal (N.of_nat i))
                                             = twoDigits (N.of_nat i)))
                (seq 0 (N.to_nat 100)) = true)
    by (vm_compute; reflexivity).
  rewrite forallb_forall in H. specialize (H (N.to_nat n)).
  rewrite N2Nat.id in H. apply bool_decide_eq_true in H; [done|].
  apply in_seq. lia.
Qed.

Lemma toDecimal_year n : (1000 <= n < 10000)%N -> toDecimal n = fourDigits n.
Proof.
  intros Hn.
  assert (H : forallb (fun i => bool_decide (toDecimal (N.of_nat i)
                                             = fourDigits (N.of_nat i)))
                (seq (N.to_nat 1000) (N.to_nat 9000)) = true)
    by (vm_compute; reflexivity).
  rewrite forallb_forall in H. specialize (H (N.to_nat n)).
  rewrite N2Nat.id in H. apply bool_decide_eq_true in H; [done|].
  apply in_seq. lia.
Qed.

Lemma twoDigits_inj n n' :
  (n < 100)%N -> (n' < 100)%N -> twoDigits n = twoDigits n' -> n = n'.
Proof.
  intros Hn Hn' [= H1 H2].
  pose proof (N.div_mod n 10 ltac:(lia)).
  pose proof (N.div_mod n' 10 ltac:(lia)). lia.
Qed.

Lemma fourDigits_inj n n' : fourDigits n = fourDigits n' -> n = n'.
Proof.
  intros [= H1 H2 H3 H4].
  assert (Hd : forall k : N,
            k = (1000 * (k / 1000) + 100 * ((k / 100) mod 10)
                 + 10 * ((k / 10) mod 10) + k mod 10)%N).
  { intros k. pose proof (N.div_mod k 10 ltac:(lia)).
    pose proof (N.div_mod (k / 10) 10 ltac:(lia)).
    pose proof (N.div_mod (k / 100) 10 ltac:(lia)).
    replace (k / 10 / 10)%N with (k / 100)%N in *
      by (by rewrite N.Div0.div_div).
    replace (k / 100 / 10)%N with (k / 1000)%N in *
      by (by rewrite N.Div0.div_div).
    lia. }
  rewrite (Hd n), (Hd n'). lia.
Qed.

Lemma getTodayDateString_digits fullYear month date :
  calendarDate fullYear month date ->
  getTodayDateString fullYear month date
  = fourDigits fullYear ++ [DASH] ++ twoDigits (month + 1) ++ [DASH]
    ++ twoDigits date.
Proof.
  intros (Hy & Hm & Hd). unfold getTodayDateString.
  by rewrite toDecimal_year, !padStart2_small by lia.
Qed.

(** X22.  The date key of a calendar date whose year has four digits has
    the ten code units of [YYYY-MM-DD], and two dates with the same key are
    the same date. *)
Theorem date_key_is_fixed_width_and_injective
    (fullYear month date fullYear' month' date' : N) :
  calendarDate fullYear month date ->
  calendarDate fullYear' month' date' ->
  getTodayDateString fullYear month date
  = fourDigits fullYear ++ [DASH] ++ twoDigits (month + 1) ++ [DASH]
    ++ twoDigits date
  /\ length (getTodayDateString fullYear month date) = 10%nat
  /\ (getTodayDateString fullYear month date
      = getTodayDateString fullYear' month' date' ->
      fullYear = fullYear' /\ month = month' /\ date = date').
Proof.
  intros Hdate Hdate'.
  rewrite (getTodayDateString_digits _ _ _ Hdate),
    (getTodayDateString_digits _ _ _ Hdate').
  split; [done|]. split; [done|].
  destruct Hdate as (Hy & Hm & Hd). destruct Hdate' as (Hy' & Hm' & Hd').
  intros Heq.
  apply app_inj_1 in Heq as [Hyear Heq]; [|done].
  apply app_inj_1 in Heq as [_ Heq]; [|done].
  apply app_inj_1 in Heq as [Hmonth Heq]; [|done].
  apply app_inj_1 in Heq as [_ Hday]; [|done].
  apply fourDigits_inj in Hyear.
  apply twoDigits_inj in Hmonth; [|lia..].
  apply twoDigits_inj in Hday; [|lia..].
  split; [done|]. split; [lia|done].
Qed.

(** ** Line endings *)

Lemma trimmedGov_no_return governanceContext : CR ∉ trimmedGov governanceContext.
Proof.
  unfold trimmedGov. destruct (nonEmpty governanceContext);
    [apply trimTextToTokenBudget_no_return | apply not_elem_of_nil].
Qed.

Lemma trimmedDaily_no_return dailyText governanceContext tokenBudget :
  CR ∉ trimmedDaily dailyText governanceContext tokenBudget.
Proof.
  unfold trimmedDaily. destruct (_ && _);
    [apply trimTextToTokenBudget_no_return | apply not_elem_of_nil].
Qed.

Lemma headers_no_return :
  (CR ∉ govHeader) /\ (CR ∉ dailyHeader) /\ (CR ∉ blockSeparator).
Proof.
  split; [|split].
  - apply (bool_decide_unpack (CR ∉ govHeader)). vm_compute. exact I.
  - apply (bool_decide_unpack (CR ∉ dailyHeader)). vm_compute. exact I.
  - apply (bool_decide_unpack (CR ∉ blockSeparator)). vm_compute. exact I.
Qed.

Lemma buildUnifiedSnapshot_no_return dailyText governanceContext tokenBudget :
  CR ∉ buildUnifiedSnapshot dailyText governanceContext tokenBudget.
Proof.
  rewrite buildUnifiedSnapshot_blocks.
  pose proof (trimmedGov_no_return governanceContext) as Hg.
  pose proof (trimmedDaily_no_return dailyText governanceContext tokenBudget) as Hd.
  destruct headers_no_return as (Hgh & Hdh & Hsep).
  destruct (nonEmpty (trimmedGov governanceContext)),
    (nonEmpty (trimmedDaily dailyText governanceContext tokenBudget));
    rewrite ?not_elem_of_app; repeat split; try done. apply not_elem_of_nil.
Qed.

(** X23.  Unifying the line endings leaves no carriage return, changes
    nothing in a text without one, and changes nothing when applied again;
    the snapshot that the hook assembles holds no carriage return. *)
Theorem line_endings_are_unified (s dailyText governanceContext : jsstring)
    (tokenBudget : Z) :
  (CR ∉ normalizeNewlines s)
  /\ (CR ∉ s -> normalizeNewlines s = s)
  /\ normalizeNewlines (normalizeNewlines s) = normalizeNewlines s
  /\ (CR ∉ buildUnifiedSnapshot dailyText governanceContext tokenBudget).
Proof.
  split; [apply normalizeNewlines_no_return|].
  split; [apply normalizeNewlines_fixed|].
  split; [apply normalizeNewlines_fixed, normalizeNewlines_no_return|].
  apply buildUnifiedSnapshot_no_return.
Qed.

(** ** Bullets that start a section of their own *)

Lemma fold_scanLine_stays_idle lines : forall st,
  Forall (fun line => hasCriticalKeyword (toLowerCase line) = false) lines ->
  inCriticalSection st = false ->
  inCriticalSection (fold_left scanLine lines st) = false.
Proof.
  induction lines as [|line rest IH]; intros st Hkw Hidle; [done|].
  apply Forall_cons in Hkw as [Hline Hrest]. simpl fold_left.
  apply IH; [done|]. by apply scanLine_idle.
Qed.

Lemma scanLine_quiet_heading st h :
  is_Some (headingMatch h) -> hasCriticalKeyword (toLowerCase h) = false ->
  inCriticalSection (scanLine st h) = false.
Proof. intros [title Hh] Hkw. unfold scanLine. by rewrite Hh, Hkw. Qed.

Lemma bullet_section_captured lines before quiet b body rest :
  lines = before ++ quiet ++ b :: body ++ rest ->
  (before = []
   \/ exists h0, last before = Some h0 /\ is_Some (headingMatch h0)
                 /\ hasCriticalKeyword (toLowerCase h0) = false) ->
  Forall (fun line => hasCriticalKeyword (toLowerCase line) = false) quiet ->
  headingMatch b = None -> isBulletLine b = true ->
  hasCriticalKeyword (toLowerCase b) = true ->
  Forall (fun line => headingMatch line = None) body ->
  (rest = [] \/ exists h2, head rest = Some h2 /\ is_Some (headingMatch h2)) ->
  (Some (lit "Critical Rules"), trim (join NL (b :: body))) ∈ sectionsOf lines.
Proof.
  intros -> Hbefore Hquiet Hb Hbullet Hcrit Hbody Hrest. unfold sectionsOf.
  rewrite !fold_left_app. simpl fold_left.
  set (st0 := fold_left scanLine quiet (fold_left scanLine before initialScan)).
  assert (Hidle : inCriticalSection st0 = false).
  { apply fold_scanLine_stays_idle; [done|].
    destruct Hbefore as [->|(h0 & Hlast & Hh0 & Hkw0)]; [done|].
    destruct before as [|x before'] using rev_ind; [done|].
    rewrite last_snoc in Hlast. injection Hlast as ->.
    rewrite fold_left_app. simpl. by apply scanLine_quiet_heading. }
  assert (Hst1 : scanLine st0 b
    = mkScanState (criticalSections st0) (Some (lit "Critical Rules")) [b] true).
  { unfold scanLine. by rewrite Hb, Hbullet, Hcrit, Hidle. }
  rewrite Hst1, fold_left_app, (fold_scanLine_body body) by done.
  simpl. set (st2 := mkScanState _ _ _ _).
  assert (Hflush : (Some (lit "Critical Rules"), trim (join NL (b :: body)))
                   ∈ flushSection st2).
  { unfold flushSection, st2. simpl. apply elem_of_app. right.
    by apply list_elem_of_singleton. }
  destruct Hrest as [->|(h2 & Hhead & [title2 Hh2])].
  - exact Hflush.
  - destruct rest as [|h2' rest']; [done|]. simpl in Hhead.
    injection Hhead as ->. simpl fold_left.
    assert (Hst3 : criticalSections (scanLine st2 h2) = flushSection st2).
    { unfold scanLine. by rewrite Hh2. }
    eapply elem_of_prefix; [|apply flushSection_prefix].
    eapply elem_of_prefix; [|apply fold_scanLine_prefix].
    by rewrite Hst3.
Qed.

Lemma isBulletLine_mark line :
  isBulletLine line = true -> exists c, c ∈ line /\ isWhiteSpace c = false.
Proof.
  unfold isBulletLine. intros H.
  destruct (trimStart line) as [|c [|w t]] eqn:E; [done..|].
  exists c. split.
  - destruct (trimStart_suffix line) as [pre Hpre]. rewrite Hpre, E.
    apply elem_of_app. right. apply elem_of_cons. by left.
  - by eapply trimStart_head.
Qed.

(** X24.  A bullet with a critical keyword that stands outside a captured
    section starts a section of its own: the bullet and all lines after it,
    up to the next heading, are in the extracted text. *)
Theorem bullet_starts_a_captured_section
    (text filename : jsstring) (before quiet : list jsstring) (b : jsstring)
    (body rest : list jsstring) :
  split_lines text = before ++ quiet ++ b :: body ++ rest ->
  (before = []
   \/ exists h0, last before = Some h0 /\ is_Some (headingMatch h0)
                 /\ hasCriticalKeyword (toLowerCase h0) = false) ->
  Forall (fun line => hasCriticalKeyword (toLowerCase line) = false) quiet ->
  headingMatch b = None -> isBulletLine b = true ->
  hasCriticalKeyword (toLowerCase b) = true ->
  Forall (fun line => headingMatch line = None) body ->
  (rest = [] \/ exists h2, head rest = Some h2 /\ is_Some (headingMatch h2)) ->
  (Some (lit "Critical Rules"), trim (join NL (b :: body)))
    ∈ sectionsOf (split_lines text)
  /\ occursIn (trim (join NL (b :: body)))
       (extractCriticalConstraints text filename).
Proof.
  intros Hlines Hbefore Hquiet Hb Hbullet Hcrit Hbody Hrest.
  pose proof (bullet_section_captured _ _ _ _ _ _ Hlines Hbefore Hquiet Hb
                Hbullet Hcrit Hbody Hrest) as Hsec.
  split; [done|].
  destruct (isBulletLine_mark b Hbullet) as (c & Hc & Hw).
  assert (Htight : tight (trim (join NL (b :: body)))).
  { apply trim_tight, (trim_nonempty _ c); [|done].
    destruct (occursIn_join NL b (b :: body)) as (pre & post & ->);
      [apply elem_of_cons; by left|].
    apply elem_of_app. right. apply elem_of_app. by left. }
  unfold extractCriticalConstraints.
  destruct text as [|x text']; [|simpl negb; cbv iota].
  - simpl in Hlines. destruct before as [|? [|? ?]], quiet as [|? [|? ?]];
      simpl in Hlines; try discriminate Hlines.
    injection Hlines as <- _. by apply elem_of_nil in Hc.
  - apply occursIn_trim; [done|]. apply occursIn_join.
    unfold constraintParts. apply elem_of_app. left.
    change (trim (join NL (b :: body)) ∈ snd <$> sectionsOf (split_lines (x :: text'))).
    apply list_elem_of_fmap. by eexists (_, _).
Qed.

End Hook.

(** C2, the claim as stated fails: with a governance context of 4800
    characters and a daily text of 7176 characters, the governance block
    takes 1206 tokens, more than 40% of 3000, the daily block 1803, more than
    60%, and the assembled snapshot 3011, more than the total. *)
Lemma unified_snapshot_over_budget :
  GOVERNANCE_TOKEN_BUDGET
    < estimateTokens (govHeader ++ trimmedGov sampleGovernance)
  /\ DAILY_TOKEN_BUDGET
    < estimateTokens
        (dailyHeader ++ trimmedDaily sampleDaily sampleGovernance MAX_SNAPSHOT_TOKENS)
  /\ MAX_SNAPSHOT_TOKENS
    < estimateTokens
        (buildUnifiedSnapshot sampleDaily sampleGovernance MAX_SNAPSHOT_TOKENS).
Proof. vm_compute. repeat split; reflexivity. Qed.

(** C1, the code at a failing input: for a note of 300 task lines the
    final guard keeps lines up to 11992 characters and the marker is added to
    them, which gives 12059 characters for a budget of 12000. *)
Lemma snapshot_exceeds_budget_with_marker :
  strlen (trim (normalizeNewlines sampleTaskNote)) = 14999
  /\ strlen (buildObsidianSafeSnapshot sampleTaskNote MAX_SNAPSHOT_CHARS) = 12059
  /\ MAX_SNAPSHOT_CHARS
     < strlen (buildObsidianSafeSnapshot sampleTaskNote MAX_SNAPSHOT_CHARS).
Proof. vm_compute. repeat split; reflexivity. Qed.


(** C7, the claim as stated fails: for the sample note the first stage
    retains the first and the last line and skips the long line between
    them, which is not a block of final lines. *)
Lemma excerpt_not_a_suffix :
  let lines := split_lines (trim (normalizeNewlines sampleGapNote)) in
  let excerpt := clipFromTailByLine lines (excerptBudget MAX_SNAPSHOT_CHARS) in
  MAX_SNAPSHOT_CHARS < strlen (trim (normalizeNewlines sampleGapNote))
  /\ excerpt = [lit "a"; lit "c"]
  /\ ~ (excerpt `suffix_of` lines).
Proof.
  cbv zeta.
  assert (split_lines (trim (normalizeNewlines sampleGapNote))
          = [lit "a"; replicate (Z.to_nat 12000) 98%N; lit "c"]) as ->
    by (vm_compute; reflexivity).
  assert (clipFromTailByLine
            [lit "a"; replicate (Z.to_nat 12000) 98%N; lit "c"]
            (excerptBudget MAX_SNAPSHOT_CHARS) = [lit "a"; lit "c"]) as ->
    by (vm_compute; reflexivity).
  split; [vm_compute; reflexivity|]. split; [reflexivity|].
  intros [k Hk].
  destruct k as [|x [|y k]]; [discriminate Hk| |].
  - injection Hk as _ Hk _. vm_compute in Hk. discriminate Hk.
  - apply (f_equal length) in Hk. rewrite length_app in Hk.
    simpl length in Hk. lia.
Qed.

(** The long middle line of the sample note is not taken, and did not fit
    next to the last line. *)
Lemma tail_excerpt_is_greedy_witness :
  let lines := split_lines sampleGapNote in
  let budget := excerptBudget MAX_SNAPSHOT_CHARS in
  budget
  < pickedCost lines (filter (fun j => (1 < j)%nat) (pickFromTail lines budget))
    + lineCost (lineAt lines 1).
Proof.
  intros lines budget.
  apply (proj2 (proj2 (proj2 (proj2 (tail_excerpt_is_greedy lines budget))))).
  - assert (length lines = 3%nat) as -> by (vm_compute; reflexivity). lia.
  - assert (pickFromTail lines budget = [2; 0]%nat) as ->
      by (vm_compute; reflexivity).
    intros H. apply elem_of_cons in H as [H|H]; [discriminate H|].
    apply elem_of_cons in H as [H|H]; [discriminate H|].
    by apply elem_of_nil in H.
Defined.

(** C4, the claim as stated fails: a new line that starts with white space
    loses it in the delta, while the lines from the checkpoint to the end,
    without blank lines around them, keep it. *)
Lemma delta_strips_indentation :
  deltaTextOf (Some sampleCheckpoint) sampleGrownNote = lit "- nested item"
  /\ deltaBySpec 1 (split_lines sampleGrownNote) = lit "  - nested item"
  /\ deltaTextOf (Some sampleCheckpoint) sampleGrownNote
     <> deltaBySpec 1 (split_lines sampleGrownNote).
Proof.
  assert (H1 : deltaTextOf (Some sampleCheckpoint) sampleGrownNote
               = lit "- nested item") by (vm_compute; reflexivity).
  assert (H2 : deltaBySpec 1 (split_lines sampleGrownNote)
               = lit "  - nested item") by (vm_compute; reflexivity).
  rewrite H1, H2. repeat split. intros H. vm_compute in H. discriminate H.
Qed.

(** The delta of the sample note after a checkpoint of one line. *)
Lemma delta_is_trimmed_new_lines_witness :
  length (drop 1 (split_lines sampleGrownNote)) = 1%nat
  /\ deltaTextOf (Some sampleCheckpoint) sampleGrownNote
     = trim (join NL (drop 1 (split_lines sampleGrownNote))).
Proof.
  apply (proj1 (delta_is_trimmed_new_lines (Some sampleCheckpoint) sampleGrownNote)
           sampleCheckpoint 1%nat 1%nat).
  - reflexivity.
  - reflexivity.
  - lia.
  - vm_compute. reflexivity.
Defined.





(** C8, the claim as stated fails: in the sample document the section
    [## Safety] runs, by the levels of the headings, to [## Other] and holds
    the subsection [### Details]; the extractor stops at [### Details]. *)
Lemma subsection_not_captured :
  let out :=
    extractCriticalConstraints asciiLower asciiUpper (join NL sampleNestedRules) [] in
  let bySpec :=
    trim (join NL (lit "## Safety" :: sectionBodyBySpec 2 (tail sampleNestedRules))) in
  headingLevel (lit "## Safety") = Some 2%nat
  /\ hasCriticalKeyword (asciiLower (lit "## Safety")) = true
  /\ sectionBodyBySpec 2 (tail sampleNestedRules)
     = [lit "rule one"; lit "### Details"; lit "more detail"]
  /\ out = lit "## Safety" ++ NL ++ lit "rule one"
  /\ includes bySpec out = false
  /\ includes (lit "more detail") out = false.
Proof. vm_compute. repeat split; reflexivity. Qed.

(** The constraint bullet of the sample document. *)
Lemma constraints_are_extracted_witness :
  let line := lit "- NEVER delete user files" in
  let lines := split_lines (join NL sampleBulletRules) in
  constraintParts asciiLower asciiUpper lines
  = map snd (sectionsOf asciiLower lines)
    ++ lit "## Absolute Constraints"
       :: unique (strongConstraintsOf asciiUpper lines)
  /\ (trim line ∈ unique (strongConstraintsOf asciiUpper lines))
  /\ NoDup (unique (strongConstraintsOf asciiUpper lines))
  /\ occursIn (trim line)
       (extractCriticalConstraints asciiLower asciiUpper
          (join NL sampleBulletRules) []).
Proof.
  apply (proj2 (constraints_are_extracted asciiLower asciiUpper
                  (join NL sampleBulletRules) [] ltac:(discriminate))
           (lit "- NEVER delete user files")).
  - vm_compute. apply elem_of_cons. right. apply elem_of_cons. by left.
  - vm_compute. reflexivity.
Defined.

(** C5, the claim as stated fails: in the sample note, over the budget,
    the first line holds a cross-reference and a label; the tasks fill the
    budget of the final guard, which then skips the sections of the
    cross-references and of the labels, and neither token is in the output. *)
Lemma tokens_lost_by_final_guard :
  let text := trim (normalizeNewlines sampleLinkedNote) in
  let out := buildObsidianSafeSnapshot sampleLinkedNote MAX_SNAPSHOT_CHARS in
  MAX_SNAPSHOT_CHARS < strlen text
  /\ extractWikilinks text = [lit "[[Project Plan]]"]
  /\ extractTags text = [lit "#work"]
  /\ occursIn (lit "[[Project Plan]]") text
  /\ occursIn (lit "#work") text
  /\ ~ occursIn (lit "[[Project Plan]]") out
  /\ ~ occursIn (lit "#work") out.
Proof.
  cbv zeta. split; [vm_compute; reflexivity|].
  split; [vm_compute; reflexivity|]. split; [vm_compute; reflexivity|].
  split; [apply includes_spec; vm_compute; reflexivity|].
  split; [apply includes_spec; vm_compute; reflexivity|].
  split; intros H%includes_spec; vm_compute in H; discriminate H.
Qed.

(** The cross-reference of the short sample note is in its snapshot. *)
Lemma tokens_survive_when_sections_fit_witness :
  occursIn (lit "[[Project Plan]]")
    (buildObsidianSafeSnapshot sampleShortLinkedNote MAX_SNAPSHOT_CHARS).
Proof.
  apply (tokens_survive_when_sections_fit sampleShortLinkedNote
           MAX_SNAPSHOT_CHARS (lit "[[Project Plan]]")).
  - vm_compute. reflexivity.
  - apply Z.leb_le. vm_compute. reflexivity.
  - left. split.
    + exists (lit "Project Plan"). split; [discriminate|]. split; [|reflexivity].
      intros H. vm_compute in H.
      repeat (apply elem_of_cons in H as [H|H]; [discriminate H|]).
      by apply elem_of_nil in H.
    + apply includes_spec. vm_compute. reflexivity.
Defined.

(** A line of blanks gives nothing. *)
Lemma blank_text_gives_nothing_witness :
  trimTextToTokenBudget (lit "  " ++ NL) 100 = []
  /\ buildObsidianSafeSnapshot (lit "  " ++ NL) 100 = [].
Proof.
  apply blank_text_gives_nothing.
  apply (bool_decide_unpack
           (Forall (fun c => isWhiteSpace c = true) (lit "  " ++ NL))).
  vm_compute. exact I.
Defined.

(** A short note passes through the structural truncator. *)
Lemma safe_snapshot_length_witness :
  buildObsidianSafeSnapshot (lit " note ") 10
  = trim (normalizeNewlines (lit " note ")).
Proof.
  apply (proj2 (safe_snapshot_length (lit " note ") 10)).
  apply Z.leb_le. vm_compute. reflexivity.
Defined.

(** The sample rules enter the snapshot in full. *)
Lemma governance_enters_in_full_witness :
  (govHeader ++ sampleRules)
    `prefix_of` buildUnifiedSnapshot (lit "note") sampleRules MAX_SNAPSHOT_TOKENS.
Proof.
  apply governance_enters_in_full.
  - reflexivity.
  - apply (bool_decide_unpack (CR ∉ sampleRules)). vm_compute. exact I.
  - vm_compute. reflexivity.
  - apply Z.leb_le. vm_compute. reflexivity.
Defined.

(** The embedded cross-reference of a sample line. *)
Lemma wikilinks_are_extracted_exactly_witness :
  exists m,
    m ∈ extractWikilinks (lit "see ![[Project Plan]] #work")
    /\ occursIn (lit "[[Project Plan]]") m.
Proof.
  apply (proj2 (proj2 (wikilinks_are_extracted_exactly
                         (lit "see ![[Project Plan]] #work")))
           (lit "[[Project Plan]]")).
  - exists (lit "Project Plan"). split; [discriminate|]. split; [|reflexivity].
    apply (bool_decide_unpack (RBRACKET ∉ lit "Project Plan")).
    vm_compute. exact I.
  - apply includes_spec. vm_compute. reflexivity.
Defined.

(** The label of a sample line. *)
Lemma tags_are_extracted_exactly_witness :
  exists t',
    t' ∈ extractTags (lit "see ![[Project Plan]] #work")
    /\ occursIn (lit "#work") t'.
Proof.
  apply (proj2 (proj2 (tags_are_extracted_exactly
                         (lit "see ![[Project Plan]] #work")))
           (lit "#work")).
  split.
  - exists (lit "work"). split; [discriminate|]. split; [|reflexivity].
    apply (bool_decide_unpack
             (Forall (fun c => isTagChar c = true) (lit "work"))).
    vm_compute. exact I.
  - exists (lit "see ![[Project Plan]] "), []. split; [reflexivity|].
    right. exists SPACE. split; reflexivity.
Defined.

(** The block comment of the sample lines. *)
Lemma comment_lines_marked_or_enclosed_witness :
  extractCommentLines sampleCommentLines
  = lit "%% start" :: [lit "hidden"] ++ lit "end %%" :: extractCommentLines [lit "b"].
Proof.
  apply (proj2 (proj2 (comment_lines_marked_or_enclosed sampleCommentLines))
           [lit "a"] (lit "%% start") [lit "hidden"] (lit "end %%") [lit "b"]).
  - reflexivity.
  - repeat constructor.
  - repeat constructor.
  - reflexivity.
  - reflexivity.
Defined.

(** The task line of a note too long for the snapshot. *)
Lemma task_and_comment_lines_survive_witness :
  occursIn (trim (lit "- [ ] call the bank"))
    (buildObsidianSafeSnapshot sampleTaskFirstNote MAX_SNAPSHOT_CHARS).
Proof.
  apply (task_and_comment_lines_survive sampleTaskFirstNote MAX_SNAPSHOT_CHARS
           (lit "- [ ] call the bank")).
  - vm_compute. reflexivity.
  - apply Z.leb_le. vm_compute. reflexivity.
  - assert (split_lines (trim (normalizeNewlines sampleTaskFirstNote))
            = [lit "- [ ] call the bank"; replicate (Z.to_nat 12000) 97%N]) as ->
      by (vm_compute; reflexivity).
    apply elem_of_cons. left. reflexivity.
  - left. vm_compute. reflexivity.
Defined.

(** No excerpt for a limit of zero. *)
Lemma tail_excerpt_has_no_repeats_witness :
  clipFromTailByLine sampleHeadedLines 0 = [].
Proof.
  apply (proj2 (tail_excerpt_has_no_repeats sampleHeadedLines 0)). lia.
Defined.

(** The excerpt of the last sample line opens with the heading. *)
Lemma tail_excerpt_opens_with_headings_witness :
  unique (findHeadingContext sampleHeadedLines 2)
    `prefix_of` clipFromTailByLine sampleHeadedLines 5.
Proof.
  apply (tail_excerpt_opens_with_headings sampleHeadedLines 5 2 []).
  vm_compute. reflexivity.
Defined.


(** The snapshot of the first run on the sample day. *)
Lemma rebuilt_snapshot_is_bounded_witness :
  estimateTokens
    (safeSnapshot (handlerCore asciiLower asciiUpper sampleDigest sampleDay ∅))
  <= MAX_SNAPSHOT_TOKENS + 11
  /\ strlen
       (safeSnapshot (handlerCore asciiLower asciiUpper sampleDigest sampleDay ∅))
     <= 12044.
Proof.
  apply (rebuilt_snapshot_is_bounded asciiLower asciiUpper sampleDigest sampleDay ∅).
  reflexivity.
Defined.

(** The first run on the day without note and without governance files. *)
Lemma blank_note_gives_governance_only_witness :
  safeSnapshot (handlerCore asciiLower asciiUpper sampleDigest sampleEmptyDay ∅)
  = (if nonEmpty (trimmedGov
                    (governanceContextOf asciiLower asciiUpper sampleEmptyDay))
     then govHeader
          ++ trimmedGov (governanceContextOf asciiLower asciiUpper sampleEmptyDay)
     else [])
  /\ (governanceContextOf asciiLower asciiUpper sampleEmptyDay = [] ->
      dailyArtifact asciiLower asciiUpper sampleEmptyDay
        (safeSnapshot
           (handlerCore asciiLower asciiUpper sampleDigest sampleEmptyDay ∅))
      = lit "# Obsidian Context Snapshot" ++ NL ++ NL
        ++ lit "No log entries found for today yet. Use the obsidian-life-memory skill to log events."
        ++ NL ++ NL).
Proof.
  apply (blank_note_gives_governance_only
           asciiLower asciiUpper sampleDigest sampleEmptyDay ∅).
  - constructor.
  - reflexivity.
Defined.

(** The note that ended with a line break and grew by two lines. *)
Lemma delta_after_append_witness :
  deltaTextOf (Some sampleCheckpointTwo)
    (lit "first" ++ NL ++ lit "second" ++ NL ++ lit "third")
  = trim (join NL (tail (split_lines (lit "second" ++ NL ++ lit "third")))).
Proof.
  apply (proj2 (delta_after_append sampleCheckpointTwo (lit "first")
                  (lit "second" ++ NL ++ lit "third"))).
  reflexivity.
Defined.

(** Two runs on the sample day, with a state file that reads back as
    written. *)
Lemma second_run_changes_nothing_witness :
  let parse := fun _ : jsstring =>
    Some (JObject
            (<[today sampleDay
               := rebuiltEntry asciiLower asciiUpper sampleDigest sampleDay None]>
               ∅)) in
  handler asciiLower asciiUpper sampleDigest parse sampleStringify sampleDayLater
    (stateFileAfter
       (handler asciiLower asciiUpper sampleDigest parse sampleStringify
          sampleDay None))
  = handler asciiLower asciiUpper sampleDigest parse sampleStringify sampleDay None.
Proof.
  intros parse. apply second_run_changes_nothing.
  - reflexivity.
  - reflexivity.
  - reflexivity.
  - intros st H. rewrite handlerCore_rebuild in H by reflexivity.
    simpl in H. injection H as <-. reflexivity.
  - intros H. vm_compute in H. discriminate H.
Defined.

(** The section of the sample rules in the governance context. *)
Lemma governance_context_sections_witness :
  occursIn
    (lit "## " ++ labelOf (lit "SOUL.md") ++ NL
     ++ extractCriticalConstraints asciiLower asciiUpper sampleRules (lit "SOUL.md"))
    (buildGovernanceContext asciiLower asciiUpper [(lit "SOUL.md", sampleRules)]).
Proof.
  apply (proj1 (proj2 (governance_context_sections asciiLower asciiUpper
                         [(lit "SOUL.md", sampleRules)]))).
  - apply elem_of_cons. left. reflexivity.
  - intros H. vm_compute in H. discriminate H.
Defined.

(** A text without keywords. *)
Lemma nothing_extracted_without_keywords_witness :
  extractCriticalConstraints asciiLower asciiUpper
    (lit "hello" ++ NL ++ lit "world") [] = [].
Proof.
  apply nothing_extracted_without_keywords.
  apply (bool_decide_unpack
           (Forall (fun line => hasCriticalKeyword (asciiLower line) = false
                                /\ isStrongConstraint asciiUpper line = false)
              (split_lines (lit "hello" ++ NL ++ lit "world")))).
  vm_compute. exact I.
Defined.

(** A flag with its value. *)
Lemma command_line_is_parsed_witness :
  values (parseArgs [lit "init"; lit "--timezone"; lit "UTC"]) !! lit "--timezone"
  = Some (lit "UTC").
Proof.
  apply (proj2 (proj2 (proj2 (proj2
           (command_line_is_parsed (lit "init") [lit "--timezone"; lit "UTC"]))))
           [] (lit "--timezone") (lit "UTC") []).
  - reflexivity.
  - reflexivity.
  - reflexivity.
  - reflexivity.
  - apply not_elem_of_nil.
Defined.

(** The key of 16 February 2026. *)
Lemma date_key_is_fixed_width_and_injective_witness :
  getTodayDateString 2026 1 16 = lit "2026-02-16"
  /\ length (getTodayDateString 2026 1 16) = 10%nat.
Proof.
  assert (H : calendarDate 2026 1 16) by (unfold calendarDate; lia).
  destruct (date_key_is_fixed_width_and_injective 2026 1 16 2026 1 16 H H)
    as (Hkey & Hlen & _).
  split; [rewrite Hkey; vm_compute; reflexivity | exact Hlen].
Defined.

(** A text without carriage return. *)
Lemma line_endings_are_unified_witness :
  normalizeNewlines (lit "a" ++ NL ++ lit "b") = lit "a" ++ NL ++ lit "b".
Proof.
  apply (proj1 (proj2 (line_endings_are_unified (lit "a" ++ NL ++ lit "b") [] [] 0))).
  apply (bool_decide_unpack (CR ∉ lit "a" ++ NL ++ lit "b")). vm_compute. exact I.
Defined.

(** The bullet of the sample document and the line after it. *)
Lemma bullet_starts_a_captured_section_witness :
  occursIn (trim (join NL [lit "- never delete user files"; lit "ask first"]))
    (extractCriticalConstraints asciiLower asciiUpper
       (join NL sampleBulletSection) []).
Proof.
  refine (proj2 (bullet_starts_a_captured_section asciiLower asciiUpper
                   (join NL sampleBulletSection) []
                   [lit "# Notes"] [] (lit "- never delete user files")
                   [lit "ask first"] [lit "# Other"; lit "x"]
                   _ _ _ _ _ _ _ _)).
  - vm_compute. reflexivity.
  - right. exists (lit "# Notes"). split; [reflexivity|].
    split; [eexists; vm_compute; reflexivity | vm_compute; reflexivity].
  - constructor.
  - vm_compute. reflexivity.
  - vm_compute. reflexivity.
  - vm_compute. reflexivity.
  - repeat constructor.
  - right. exists (lit "# Other"). split; [reflexivity|].
    eexists. vm_compute. reflexivity.
Defined.
